(** * sensu-sh: command interception, query filter and result encoder

    A shallow embedding of [main.go]: the exec hook [Prog.exec], the two
    built-in commands [Prog.filterJSON] and [Prog.filterEvent], the filter
    [jsonFilter.run] with its choice of encoder, and [plainEncoder.Encode].

    The packages the program imports (gojq, yaml.v3, encoding/json, strconv,
    fmt) are collaborators: they appear as the fields of the class
    [Collaborators] and every statement below holds for all of them.  The
    [flag] package decides how an argument vector splits into options and
    positional arguments, so its parser is written out for the boolean
    options the program declares.

    A command is a function from its context to what it does, in order, and
    the [error] it returns.  A query result sequence may be infinite: it is
    the function from [i] to what the [i]-th call of [iter.Next()] returns
    (or that it panics), and the loop over it takes fuel.  The standard
    streams are buffers: writing to them does not fail, so an encoder fails
    only on a value it cannot encode. *)

From Stdlib Require Import String Ascii List Bool Arith ZArith Lia.
From Stdlib Require Import Floats.SpecFloat DecimalString.
Import ListNotations.
Open Scope string_scope.
Open Scope list_scope.

Set Implicit Arguments.
Set Warnings "-register-all".

(* ------------------------------------------------------------------ *)
(** ** Go strings *)

(** The one-byte string holding a line feed. *)
Definition LF : string := String (ascii_of_nat 10) EmptyString.

(** [s[i]] as an option: [None] past the end. *)
Definition byte_at (s : string) (i : nat) : option ascii := String.get i s.

(** [s[i] == c], false past the end (every use is guarded by a length test). *)
Definition byte_is (s : string) (i : nat) (c : ascii) : bool :=
  match byte_at s i with
  | Some b => Ascii.eqb b c
  | None => false
  end.

(** [s[i:]] *)
Definition slice_from (s : string) (i : nat) : string :=
  substring i (String.length s - i) s.

(** [s[:i]] *)
Definition slice_to (s : string) (i : nat) : string := substring 0 i s.

Module strings.

(** [strings.HasPrefix(s, prefix)]:
    [len(s) >= len(prefix) && s[:len(prefix)] == prefix] *)
Definition HasPrefix (s prefix : string) : bool :=
  (String.length prefix <=? String.length s)%nat
  && String.eqb (slice_to s (String.length prefix)) prefix.

(** [strings.TrimPrefix(s, prefix)] *)
Definition TrimPrefix (s prefix : string) : string :=
  if HasPrefix s prefix then slice_from s (String.length prefix) else s.

(** [strings.Join(elems, sep)] *)
Definition Join (elems : list string) (sep : string) : string :=
  String.concat sep elems.

End strings.

(* ------------------------------------------------------------------ *)
(** ** Package flag, for sets of boolean options

    [FlagSet.Parse] and [FlagSet.parseOne] of the Go standard library.  Every
    option of this program is declared with [BoolVar], so the branch of
    [parseOne] that takes the value of an option from the next argument is
    never entered and is left out. *)

Module flag.

(** The errors [Parse] returns.  Go builds the last three with
    [fmt.Errorf]; the fields are the arguments of the format. *)
Inductive error : Type :=
| ErrHelp
| BadSyntax (s : string)            (* "bad flag syntax: %s" *)
| NotDefined (name : string)        (* "flag provided but not defined: -%s" *)
| InvalidBool (value name : string) (* "invalid boolean value %q for -%s: %v" *).

(** [strconv.ParseBool] *)
Definition ParseBool (str : string) : option bool :=
  if existsb (String.eqb str) ["1"; "t"; "T"; "TRUE"; "true"; "True"] then Some true
  else if existsb (String.eqb str) ["0"; "f"; "F"; "FALSE"; "false"; "False"] then Some false
  else None.

(** A flag set over a store [V] of bound variables: [BoolVar(&x, name, ..)]
    records under [name] the assignment to [x]. *)
Record FlagSet (V : Type) : Type := NewFlagSet {
  name : string;
  formal : list (string * (bool -> V -> V))
}.

Definition BoolVar {V} (f : FlagSet V) (set : bool -> V -> V) (nm : string) : FlagSet V :=
  NewFlagSet (name f) (formal f ++ [(nm, set)]).

(** [f.formal[name]] *)
Fixpoint lookup {V} (formal : list (string * (bool -> V -> V))) (nm : string)
  : option (bool -> V -> V) :=
  match formal with
  | [] => None
  | (k, set) :: formal' => if String.eqb k nm then Some set else lookup formal' nm
  end.

(** The first index [i >= from] with [name[i] == '='], as the loop
    [for i := 1; i < len(name); i++] finds it. *)
Fixpoint index_equals (nm : string) (from i : nat) : option nat :=
  match nm with
  | EmptyString => None
  | String c nm' =>
      if (from <=? i)%nat && Ascii.eqb c "="%char then Some i
      else index_equals nm' from (S i)
  end.

(** What one call of [parseOne] does with the first remaining argument. *)
Inductive parsed (V : Type) : Type :=
| NotFlag             (* return false, nil; f.args unchanged *)
| Terminator          (* "--": f.args = f.args[1:]; return false, nil *)
| Seen (v : V)        (* f.args = f.args[1:]; return true, nil *)
| Failed (e : error)  (* return false, err *).
Arguments NotFlag {V}.
Arguments Terminator {V}.
Arguments Failed {V} e.

Definition parseOne {V} (f : FlagSet V) (v : V) (s : string) : parsed V :=
  if (String.length s <? 2)%nat || negb (byte_is s 0 "-") then NotFlag
  else
    let numMinuses := if byte_is s 1 "-" then 2 else 1 in
    if (numMinuses =? 2)%nat && (String.length s =? 2)%nat then Terminator
    else
      let nm := slice_from s numMinuses in
      if (String.length nm =? 0)%nat || byte_is nm 0 "-" || byte_is nm 0 "="
      then Failed (BadSyntax s)
      else
        let '(nm, value) :=
          match index_equals nm 1 0 with
          | Some i => (slice_to nm i, Some (slice_from nm (i + 1)))
          | None => (nm, None)
          end in
        match lookup (formal f) nm with
        | None =>
            if String.eqb nm "help" || String.eqb nm "h"
            then Failed ErrHelp
            else Failed (NotDefined nm)
        | Some set =>
            match value with
            | Some value =>
                match ParseBool value with
                | Some b => Seen (set b v)
                | None => Failed (InvalidBool value nm)
                end
            | None => Seen (set true v)
            end
        end.

(** [f.Parse(arguments)] under [ContinueOnError]: the error, or the store
    after the options and [f.Args()]. *)
Fixpoint Parse {V} (f : FlagSet V) (v : V) (arguments : list string)
  : error + (V * list string) :=
  match arguments with
  | [] => inr (v, [])
  | s :: rest =>
      match parseOne f v s with
      | NotFlag => inr (v, arguments)
      | Terminator => inr (v, rest)
      | Seen v' => Parse f v' rest
      | Failed e => inl e
      end
  end.

End flag.

(* ------------------------------------------------------------------ *)
(** ** Data model *)

(** The dynamic values behind an [interface{}]: what the YAML decoder
    yields and gojq consumes and yields.  [nil], [bool], [int], [big.Int],
    [float64], [string], [[]interface{}] and [map[string]interface{}] are
    the types gojq knows; the decoder also yields
    [map[interface{}]interface{}] for a mapping with a key that is not a
    string, and [time.Time] for a timestamp.  The program never looks
    inside a slice or a map, it only switches on the type. *)
Inductive value : Type :=
| VNil
| VBool (b : bool)
| VInt (n : Z)
| VBigInt (n : Z)
| VFloat (f : spec_float)
| VString (s : string)
| VSlice (elems : list value)
| VMap (fields : list (string * value))
| VMapAny (entries : list (value * value))
| VTime (stamp : string).

(** What a call of [iter.Next()] gives when there is a next element: a
    value, a value of a type that implements [error], or no return at all:
    gojq panics on a value of a type it does not know, and [run] does not
    recover. *)
Inductive item : Type :=
| Val (v : value)
| Err (msg : string)
| Panicked (v : string).

(** A Go [(T, error)] pair. *)
Inductive result (A : Type) : Type :=
| Ok (a : A)
| Error (msg : string).
Arguments Error {A} msg.

(** An [io.Reader]: the bytes it yields, then [io.EOF] or a read error. *)
Record reader : Type := { data : string; fault : option string }.

Module strings_reader.
(** [strings.NewReader(s)] *)
Definition NewReader (s : string) : reader := {| data := s; fault := None |}.
End strings_reader.

(** Package mvdan.cc/sh/v3/expand: what [Environ.Get] returns. *)
Module expand.

Inductive ValueKind : Type := Unset | String | NameRef | Indexed | Associative.

(** [Variable] (a reserved word here, hence [Var]); the fields the program
    reads. *)
Record Var : Type := {
  Kind : ValueKind;
  Str : string;
  List : list string
}.

Definition Kind_eqb (a b : ValueKind) : bool :=
  match a, b with
  | Unset, Unset | String, String | NameRef, NameRef
  | Indexed, Indexed | Associative, Associative => true
  | _, _ => false
  end.

End expand.

(** A line of a [log.Logger]: the call that wrote it. *)
Inductive logline : Type :=
| log_Print (e : flag.error)
| log_Printf (format : string) (args : list string).

(** What a command does that can be seen from outside, in order.  [Parsed]
    and [Ran] record the calls [gojq.Parse(queryStr)] and [query.Run(input)];
    [FlagOutput] is the message and usage text that package flag prints to
    the flag set's output. *)
Inductive effect : Type :=
| Stdout (s : string)
| Stderr (prefix : string) (l : logline)
| FlagOutput (set : string) (e : flag.error)
| Parsed (queryStr : string)
| Ran (queryStr : string) (input : value).

(** Package mvdan.cc/sh/v3/interp. *)
Module interp.

(** The [error] an exec handler returns: [NewExitStatus(n)], or any other
    error (only the default handler produces those). *)
Inductive error : Type :=
| NewExitStatus (status : nat)
| Other (msg : string).

(** [HandlerCtx(ctx)]: the environment and standard input of the command;
    its output streams are the [Stdout] and [Stderr] effects. *)
Record HandlerContext : Type := {
  Env : string -> expand.Var;
  Stdin : reader
}.

End interp.

(** What a call has done when it ends, and how it ends: it returns an
    [error] (or [nil]), it panics, or the loop over a result sequence is
    still running when the fuel is spent. *)
Inductive outcome : Type :=
| Return (out : list effect) (err : option interp.error)
| Panic (out : list effect)
| Unfinished (out : list effect).

Definition effects_of (k : outcome) : list effect :=
  match k with
  | Return out _ | Panic out | Unfinished out => out
  end.

(** Effects [out] happen, then [k]. *)
Definition after (out : list effect) (k : outcome) : outcome :=
  match k with
  | Return out' err => Return (out ++ out') err
  | Panic out' => Panic (out ++ out')
  | Unfinished out' => Unfinished (out ++ out')
  end.

(** The bytes on standard output. *)
Fixpoint stdout_of (out : list effect) : string :=
  match out with
  | [] => ""
  | Stdout s :: out' => s ++ stdout_of out'
  | _ :: out' => stdout_of out'
  end.

(** How often the query string was compiled. *)
Fixpoint compiles (out : list effect) : nat :=
  match out with
  | [] => 0
  | Parsed _ :: out' => S (compiles out')
  | _ :: out' => compiles out'
  end.

(** ** Collaborators

    - gojq: [gojq.Parse], and [query.Run(input)] as the sequence of what the
      successive calls of [iter.Next()] return ([None] for [ok == false],
      [Panicked] for a call that panics);
    - yaml.v3: a decoder over a reader yields the documents decoded before
      the stream ends and the error that ends it, if it is not [io.EOF]; an
      encoder writes the bytes of its [n]-th document;
    - encoding/json: the encoding of a value under [escapeHTML] and an
      optional [(prefix, indent)];
    - [strconv.FormatFloat(f, fmt, prec, bitSize)] and [fmt.Sprint]. *)
Class Collaborators : Type := {
  Query : Type;
  gojq_Parse : string -> result Query;
  Query_Run : Query -> value -> nat -> option item;
  yaml_Decoder : reader -> list value * option string;
  yaml_Encoder_Encode : nat -> value -> result string;
  json_encoding : bool -> option (string * string) -> value -> result string;
  strconv_FormatFloat : spec_float -> ascii -> Z -> nat -> string;
  fmt_Sprint : value -> string
}.

(* ------------------------------------------------------------------ *)
(** ** The program *)

(** [jsonFilter]; [logger] is the prefix of its [log.Logger].  (The field
    [runner] is never read.) *)
Record jsonFilter : Type := {
  pretty : bool;
  json : bool;
  yaml : bool;
  logger : string
}.

Definition set_pretty (b : bool) (j : jsonFilter) : jsonFilter :=
  {| pretty := b; json := json j; yaml := yaml j; logger := logger j |}.
Definition set_json (b : bool) (j : jsonFilter) : jsonFilter :=
  {| pretty := pretty j; json := b; yaml := yaml j; logger := logger j |}.
Definition set_yaml (b : bool) (j : jsonFilter) : jsonFilter :=
  {| pretty := pretty j; json := json j; yaml := b; logger := logger j |}.

(** [&jsonFilter{logger: logger}] *)
Definition new_jsonFilter (prefix : string) : jsonFilter :=
  {| pretty := false; json := false; yaml := false; logger := prefix |}.

(** [jsonFilter.bind]: [at_filter] says where the filter sits in the store
    of the flag set. *)
Definition bind {V} (at_filter : (jsonFilter -> jsonFilter) -> V -> V)
    (f : flag.FlagSet V) : flag.FlagSet V :=
  let f := flag.BoolVar f (fun b => at_filter (set_json b)) "j" in
  let f := flag.BoolVar f (fun b => at_filter (set_json b)) "json" in
  let f := flag.BoolVar f (fun b => at_filter (set_yaml b)) "Y" in
  let f := flag.BoolVar f (fun b => at_filter (set_yaml b)) "yaml" in
  let f := flag.BoolVar f (fun b => at_filter (set_pretty b)) "p" in
  flag.BoolVar f (fun b => at_filter (set_pretty b)) "pretty".

(** The variables the flag set of [filterJSON] writes to. *)
Record queryVars : Type := { rawInput : bool; filter : jsonFilter }.

Definition set_rawInput (b : bool) (v : queryVars) : queryVars :=
  {| rawInput := b; filter := filter v |}.
Definition at_query_filter (g : jsonFilter -> jsonFilter) (v : queryVars) : queryVars :=
  {| rawInput := rawInput v; filter := g (filter v) |}.

(** The flag set of [query] ... *)
Definition query_flags : flag.FlagSet queryVars :=
  let f := flag.NewFlagSet "query" [] in
  let f := flag.BoolVar f set_rawInput "R" in
  let f := flag.BoolVar f set_rawInput "raw-input" in
  bind at_query_filter f.

(** ... and of [event]. *)
Definition event_flags : flag.FlagSet jsonFilter :=
  bind (fun g j => g j) (flag.NewFlagSet "event" []).

(** The three implementations of [Encoder] with their state:
    [json.Encoder], [yaml.Encoder] (documents written so far) and
    [plainEncoder]. *)
Inductive Encoder : Type :=
| json_Encoder (escapeHTML : bool) (indent : option (string * string))
| yaml_Encoder (documents : nat)
| plainEncoder (written : bool).

(** [newPlainEncoder(w)] *)
Definition newPlainEncoder : Encoder := plainEncoder false.

(** [Prog]: the event document and the default exec handler. *)
Record Prog : Type := {
  event : value;
  defaultExec : interp.HandlerContext -> list string -> outcome
}.

Section Program.
Context `{Collaborators}.

(** [json.Marshal(v)] *)
Definition json_Marshal (v : value) : result string := json_encoding true None v.

(** [plainEncoder.Encode]: the encoder afterwards, what was written,
    and the error. *)
Definition plainEncoder_Encode (written : bool) (val : value)
  : Encoder * list effect * option string :=
  let sep := if written then [Stdout LF] else [] in
  let str :=
    match val with
    | VMap _ | VSlice _ => json_Marshal val
    | VString val => Ok val
    | VFloat val => Ok (strconv_FormatFloat val "f" (-1) 64)
    | _ => Ok (fmt_Sprint val)
    end in
  match str with
  | Error err => (plainEncoder true, sep, Some err)
  | Ok str => (plainEncoder true, sep ++ [Stdout str], None)
  end.

(** [enc.Encode(val)] through the interface.  [json.Encoder] writes the
    encoding followed by a line feed. *)
Definition Encode (enc : Encoder) (val : value)
  : Encoder * list effect * option string :=
  match enc with
  | json_Encoder escapeHTML indent =>
      match json_encoding escapeHTML indent val with
      | Ok str => (enc, [Stdout (str ++ LF)], None)
      | Error err => (enc, [], Some err)
      end
  | yaml_Encoder n =>
      match yaml_Encoder_Encode n val with
      | Ok str => (yaml_Encoder (S n), [Stdout str], None)
      | Error err => (enc, [], Some err)
      end
  | plainEncoder written => plainEncoder_Encode written val
  end.

(** [jsonFilter.encoder] *)
Definition encoder (j : jsonFilter) : Encoder :=
  if json j then
    json_Encoder false (if pretty j then Some ("", "  ") else None)
  else if yaml j then yaml_Encoder 0
  else newPlainEncoder.

(** The loop [for i := 0; ; i++] of [jsonFilter.run] from index [i]. *)
Fixpoint run_loop (fuel : nat) (j : jsonFilter) (iter : nat -> option item)
    (enc : Encoder) (i : nat) : outcome :=
  match fuel with
  | O => Unfinished []
  | S fuel' =>
      match iter i with
      | None => Return [] None
      | Some (Panicked _) => Panic []
      | Some (Err err) =>
          Return [Stderr (logger j) (log_Printf "query error: %v" [err])]
                 (Some (interp.NewExitStatus 1))
      | Some (Val val) =>
          match Encode enc val with
          | (_, out, Some err) =>
              Return (out ++ [Stderr (logger j) (log_Printf "encoding error: %v" [err])])
                     (Some (interp.NewExitStatus 1))
          | (enc', out, None) => after out (run_loop fuel' j iter enc' (S i))
          end
      end
  end.

(** [jsonFilter.run] *)
Definition run (fuel : nat) (j : jsonFilter) (queryStr : string) (input : value)
  : outcome :=
  match gojq_Parse queryStr with
  | Error err =>
      Return [Parsed queryStr;
              Stderr (logger j) (log_Printf "unable to parse query: %v" [err])]
             (Some (interp.NewExitStatus 1))
  | Ok query =>
      let enc := encoder j in
      after [Parsed queryStr; Ran queryStr input]
            (run_loop fuel j (Query_Run query input) enc 0)
  end.

(** [filterJSON], lines 195-207: the reader the input comes from. *)
Definition source_reader (h : interp.HandlerContext) (source : string) : reader :=
  if negb (String.eqb source "-") then
    let v := interp.Env h source in
    let str :=
      match expand.Kind v with
      | expand.String => expand.Str v
      | expand.Indexed => strings.Join (expand.List v) LF
      | _ => ""
      end in
    strings_reader.NewReader str
  else interp.Stdin h.

(** [filterJSON], lines 219-230: the loop over the documents [dec.Decode]
    yields; [ending] is the error that is not [io.EOF], if any. *)
Fixpoint decode_loop (fuel : nat) (j : jsonFilter) (queryStr : string)
    (docs : list value) (ending : option string) : outcome :=
  match docs with
  | [] =>
      match ending with
      | None => Return [] None
      | Some err =>
          Return [Stderr (logger j) (log_Printf "error decoding input: %v" [err])]
                 (Some (interp.NewExitStatus 1))
      end
  | input :: docs' =>
      match run fuel j queryStr input with
      | Return out None => after out (decode_loop fuel j queryStr docs' ending)
      | stopped => stopped
      end
  end.

(** [filterJSON], lines 209-230: the query on the input read from [r]. *)
Definition filter_reader (fuel : nat) (vars : queryVars) (queryStr : string)
    (r : reader) : outcome :=
  let j := filter vars in
  if rawInput vars then
    match fault r with
    | Some err =>
        Return [Stderr (logger j) (log_Printf "error reading input: %v" [err])]
               (Some (interp.NewExitStatus 1))
    | None => run fuel j queryStr (VString (data r))
    end
  else
    let '(docs, ending) := yaml_Decoder r in
    decode_loop fuel j queryStr docs ending.

(** [Prog.filterJSON] *)
Definition filterJSON (fuel : nat) (h : interp.HandlerContext)
    (forceVar : option string) (args : list string) : outcome :=
  match args with
  | [] => Panic [] (* args[1:] *)
  | _ :: arguments =>
      let prefix := "query: " in
      let vars := {| rawInput := false; filter := new_jsonFilter prefix |} in
      match flag.Parse query_flags vars arguments with
      | inl flag.ErrHelp =>
          Return [FlagOutput "query" flag.ErrHelp] (Some (interp.NewExitStatus 2))
      | inl err =>
          Return [FlagOutput "query" err; Stderr prefix (log_Print err)]
                 (Some (interp.NewExitStatus 1))
      | inr (vars, args) =>
          let args := if (List.length args =? 0)%nat then ["."] else args in
          let args :=
            match forceVar with
            | Some name => args ++ [name]
            | None => args
            end in
          (* switch len(args): case 2 falls through into case 1 *)
          match args with
          | [queryStr; source] =>
              filter_reader fuel vars queryStr (source_reader h source)
          | [queryStr] => filter_reader fuel vars queryStr (source_reader h "-")
          | [] => filter_reader fuel vars "." (source_reader h "-")
          | _ =>
              Return [Stderr prefix
                        (log_Printf "too many argument to query: expected 0..2" [])]
                     (Some (interp.NewExitStatus 1))
          end
      end
  end.

(** [Prog.filterEvent] *)
Definition filterEvent (fuel : nat) (p : Prog) (h : interp.HandlerContext)
    (args : list string) : outcome :=
  match args with
  | [] => Panic [] (* args[1:] *)
  | _ :: arguments =>
      let prefix := "event: " in
      match flag.Parse event_flags (new_jsonFilter prefix) arguments with
      | inl flag.ErrHelp =>
          Return [FlagOutput "event" flag.ErrHelp] (Some (interp.NewExitStatus 2))
      | inl err =>
          Return [FlagOutput "event" err; Stderr prefix (log_Print err)]
                 (Some (interp.NewExitStatus 1))
      | inr (j, rest) =>
          match rest with
          | [] => run fuel j "." (event p)
          | [queryStr] => run fuel j queryStr (event p)
          | _ =>
              Return [Stderr prefix
                        (log_Printf "too many arguments to event: expected 0..1" [])]
                     (Some (interp.NewExitStatus 1))
          end
      end
  end.

(** [Prog.exec] *)
Definition exec (fuel : nat) (p : Prog) (h : interp.HandlerContext)
    (args : list string) : outcome :=
  match args with
  | [] => Panic [] (* args[0] *)
  | cmd :: rest =>
      if String.eqb cmd "query" then filterJSON fuel h None args
      else if String.eqb cmd "event" then filterEvent fuel p h args
      else
        let name := cmd in
        if String.eqb name "@" || negb (strings.HasPrefix cmd "@")
        then defaultExec p h args
        else
          let name := strings.TrimPrefix name "@" in
          let v := interp.Env h name in
          if negb (expand.Kind_eqb (expand.Kind v) expand.String)
             && negb (expand.Kind_eqb (expand.Kind v) expand.Indexed)
          then defaultExec p h args
          else filterJSON fuel h (Some name) ("query" :: rest)
  end.

End Program.

(* ------------------------------------------------------------------ *)
(** ** Vocabulary of the statements *)

Section Vocabulary.
Context `{Collaborators}.

(** The first [length items] calls of [iter.Next()] return [items]. *)
Definition yields (iter : nat -> option item) (items : list item) : Prop :=
  forall i x, nth_error items i = Some x -> iter i = Some x.

(** [vals] encoded one after the other from encoder state [enc], up to
    the first encoding error: what is written, and that error. *)
Fixpoint encode_all (enc : Encoder) (vals : list value)
  : list effect * option string :=
  match vals with
  | [] => ([], None)
  | val :: vals' =>
      match Encode enc val with
      | (_, out, Some err) => (out, Some err)
      | (enc', out, None) =>
          let '(out', err) := encode_all enc' vals' in (out ++ out', err)
      end
  end.

(** The text of one value in plain mode: compact JSON for a
    [map[string]interface{}] and for a slice, a string as it is, a float
    in format [f] with the shortest precision that round-trips ([-1]), a
    value of any other type as [fmt.Sprint] prints it. *)
Definition plain_text (val : value) : result string :=
  match val with
  | VMap _ | VSlice _ => json_encoding true None val
  | VString s => Ok s
  | VFloat f => Ok (strconv_FormatFloat f "f" (-1) 64)
  | VNil | VBool _ | VInt _ | VBigInt _ | VMapAny _ | VTime _ =>
      Ok (fmt_Sprint val)
  end.

(** The message [run] logs when it stops at a query error [e], or before
    it at an encoding error. *)
Definition stop_message (e : string) (encoding : option string) : logline :=
  match encoding with
  | None => log_Printf "query error: %v" [e]
  | Some err => log_Printf "encoding error: %v" [err]
  end.

End Vocabulary.

(** The store [filterJSON] parses its options into. *)
Definition query_vars0 : queryVars :=
  {| rawInput := false; filter := new_jsonFilter "query: " |}.

(** The text a variable stands for as the input of [query]. *)
Definition variable_text (v : expand.Var) : string :=
  match expand.Kind v with
  | expand.String => expand.Str v
  | expand.Indexed => String.concat LF (expand.List v)
  | expand.Unset | expand.NameRef | expand.Associative => ""
  end.

(* ------------------------------------------------------------------ *)
(** ** Package flag, with options that take a value

    [Prog.Main] declares the string option [-E]/[-event] beside the boolean
    [-R]/[-raw], so here is [parseOne] with the branch for an option whose
    value is given after [=] or is the next argument.  [Parse] is the loop
    [for { seen, err := f.parseOne() ... }]; every round that goes on has
    consumed an argument, so the length of the arguments bounds it. *)

Module flagv.

Inductive error : Type :=
| ErrHelp
| BadSyntax (s : string)            (* "bad flag syntax: %s" *)
| NotDefined (name : string)        (* "flag provided but not defined: -%s" *)
| InvalidBool (value name : string) (* "invalid boolean value %q for -%s: %v" *)
| NeedsArgument (name : string)     (* "flag needs an argument: -%s" *).

(** The [Value] behind a flag: [BoolVar] or [StringVar], with the
    assignment to the bound variable. *)
Inductive Value (V : Type) : Type :=
| boolValue (set : bool -> V -> V)
| stringValue (set : string -> V -> V).

Record FlagSet (V : Type) : Type := NewFlagSet {
  name : string;
  formal : list (string * Value V)
}.

Definition BoolVar {V} (f : FlagSet V) (set : bool -> V -> V) (nm : string) : FlagSet V :=
  NewFlagSet (name f) (formal f ++ [(nm, boolValue set)]).

Definition StringVar {V} (f : FlagSet V) (set : string -> V -> V) (nm : string) : FlagSet V :=
  NewFlagSet (name f) (formal f ++ [(nm, stringValue set)]).

(** [f.formal[name]] *)
Fixpoint lookup {V} (formal : list (string * Value V)) (nm : string) : option (Value V) :=
  match formal with
  | [] => None
  | (k, val) :: formal' => if String.eqb k nm then Some val else lookup formal' nm
  end.

(** [parseOne]: [seen], the error, the store and [f.args] afterwards. *)
Definition parseOne {V} (f : FlagSet V) (v : V) (args : list string)
  : bool * option error * V * list string :=
  match args with
  | [] => (false, None, v, args)
  | s :: rest =>
      if (String.length s <? 2)%nat || negb (byte_is s 0 "-") then (false, None, v, args)
      else
        let numMinuses := if byte_is s 1 "-" then 2 else 1 in
        if (numMinuses =? 2)%nat && (String.length s =? 2)%nat then (false, None, v, rest)
        else
          let nm := slice_from s numMinuses in
          if (String.length nm =? 0)%nat || byte_is nm 0 "-" || byte_is nm 0 "="
          then (false, Some (BadSyntax s), v, args)
          else
            let '(nm, value) :=
              match flag.index_equals nm 1 0 with
              | Some i => (slice_to nm i, Some (slice_from nm (i + 1)))
              | None => (nm, None)
              end in
            match lookup (formal f) nm with
            | None =>
                if String.eqb nm "help" || String.eqb nm "h"
                then (false, Some ErrHelp, v, rest)
                else (false, Some (NotDefined nm), v, rest)
            | Some (boolValue set) =>
                match value with
                | Some value =>
                    match flag.ParseBool value with
                    | Some b => (true, None, set b v, rest)
                    | None => (false, Some (InvalidBool value nm), v, rest)
                    end
                | None => (true, None, set true v, rest)
                end
            | Some (stringValue set) =>
                match value, rest with
                | Some value, _ => (true, None, set value v, rest)
                | None, value :: rest' => (true, None, set value v, rest')
                | None, [] => (false, Some (NeedsArgument nm), v, rest)
                end
            end
  end.

Fixpoint Parse_loop {V} (rounds : nat) (f : FlagSet V) (v : V) (args : list string)
  : error + (V * list string) :=
  match parseOne f v args with
  | (true, _, v', args') =>
      match rounds with
      | O => inr (v', args')
      | S rounds' => Parse_loop rounds' f v' args'
      end
  | (false, Some e, _, _) => inl e
  | (false, None, v', args') => inr (v', args')
  end.

(** [f.Parse(arguments)] under [ContinueOnError]. *)
Definition Parse {V} (f : FlagSet V) (v : V) (arguments : list string)
  : error + (V * list string) :=
  Parse_loop (List.length arguments) f v arguments.

End flagv.

(* ------------------------------------------------------------------ *)
(** ** Startup: [Prog.Main], [readEvent], [readScript], [openFile]

    What the process does before and around the script: the operating
    system, the event decoder, the shell parser and the interpreter are the
    collaborators of class [System]. *)

(** - [os.Stdin] and [os.Open(path)], as the reader of what the file holds;
    - [yaml.Unmarshal(data, &event)] into a [map[string]interface{}];
    - [syntax.Parser]: [Parse(f, name)] and [Incomplete()] after it;
    - [interp.DefaultExecHandler(5s)], [interp.New] (only its parameters
      can make it fail) and [runner.Run] with the exec handler installed. *)
Class System : Type := {
  os_Stdin : reader;
  os_Open : string -> result reader;
  yaml_Unmarshal : string -> result value;
  File : Type;
  Parser_Parse : reader -> string -> result File;
  Parser_Incomplete : reader -> string -> bool;
  interp_DefaultExecHandler : interp.HandlerContext -> list string -> outcome;
  interp_New : list string -> option string;
  Runner_Run : (interp.HandlerContext -> list string -> outcome)
               -> list string -> File -> option string
}.

(** What [Main] does, in order: what it logs (prefix [sensu-sh: ]), what
    package flag prints, the files it opens, standard input read, the
    script parsed under a name, the script run. *)
Inductive action : Type :=
| Logged (format : string) (args : list string)
| LoggedFlagError (e : flagv.error)
| FlagPrinted (e : flagv.error)
| Opened (path : string)
| StdinRead
| ScriptParsed (name : string)
| ScriptRun.

(** The variables the flag set of [Main] writes to. *)
Record mainVars : Type := { eventFile : string; rawScript : bool }.

Definition set_eventFile (s : string) (v : mainVars) : mainVars :=
  {| eventFile := s; rawScript := rawScript v |}.
Definition set_rawScript (b : bool) (v : mainVars) : mainVars :=
  {| eventFile := eventFile v; rawScript := b |}.

Definition main_flags : flagv.FlagSet mainVars :=
  let f := flagv.NewFlagSet "sensu-sh" [] in
  let f := flagv.StringVar f set_eventFile "E" in
  let f := flagv.StringVar f set_eventFile "event" in
  let f := flagv.BoolVar f set_rawScript "R" in
  flagv.BoolVar f set_rawScript "raw".

Definition main_vars0 : mainVars := {| eventFile := "-"; rawScript := false |}.

(** The first line of a script given on the command line. *)
Definition shebang : string := ("#!sensu-sh" ++ LF)%string.

(** [errIncomplete] *)
Definition errIncomplete : string := "attempt to parse incomplete script".

(** [Main], lines 75-79: the index of the first [--], if any. *)
Fixpoint first_terminator (srcArgs : list string) (i : nat) : option nat :=
  match srcArgs with
  | [] => None
  | arg :: rest => if String.eqb arg "--" then Some i else first_terminator rest (S i)
  end.

(** [Main], lines 74-80: [srcArgs] and [parArgs]. *)
Definition split_params (Args : list string) : list string * list string :=
  match first_terminator Args 0 with
  | Some i => (firstn i Args, skipn (i + 1) Args)
  | None => (Args, [])
  end.

(** The count of [StdinRead] in a list of actions. *)
Fixpoint stdin_reads (acts : list action) : nat :=
  match acts with
  | [] => 0
  | StdinRead :: acts' => S (stdin_reads acts')
  | _ :: acts' => stdin_reads acts'
  end.

Definition is_script_action (a : action) : bool :=
  match a with
  | ScriptParsed _ | ScriptRun => true
  | _ => false
  end.

Section Startup.
Context `{Collaborators} `{System}.

(** [openFile]: [os.Open] is called for every path but [-]. *)
Definition openFile (path : string) : list action * result reader :=
  if String.eqb path "-" then ([], Ok os_Stdin)
  else ([Opened path], os_Open path).

(** Reading what [openFile(path)] returned to its end. *)
Definition consumed (path : string) : list action :=
  if String.eqb path "-" then [StdinRead] else [].

(** [readEvent] *)
Definition readEvent (path : string) : list action * result value :=
  match openFile path with
  | (acts, Error err) =>
      (acts, Error ("error opening event [" ++ path ++ "]: " ++ err)%string)
  | (acts, Ok f) =>
      let acts := acts ++ consumed path in
      match fault f with
      | Some err =>
          (acts, Error ("error reading event [" ++ path ++ "]: " ++ err)%string)
      | None =>
          match yaml_Unmarshal (data f) with
          | Error err =>
              (acts, Error ("error parsing event [" ++ path ++ "]: " ++ err)%string)
          | Ok event => (acts, Ok event)
          end
      end
  end.

(** [readScript], lines 275-283: the parser on the stream [f]. *)
Definition parseScript (f : reader) (path : string) : result File :=
  let parsed :=
    match Parser_Parse f path with
    | Ok file => if Parser_Incomplete f path then Error errIncomplete else Ok file
    | Error err => Error err
    end in
  match parsed with
  | Error err => Error ("error parsing script [" ++ path ++ "]: " ++ err)%string
  | Ok file => Ok file
  end.

(** [readScript] *)
Definition readScript (path : string) : list action * result File :=
  if strings.HasPrefix path shebang then
    ([ScriptParsed path], parseScript (strings_reader.NewReader path) path)
  else
    match openFile path with
    | (acts, Error err) =>
        (acts, Error ("error opening script [" ++ path ++ "]: " ++ err)%string)
    | (acts, Ok f) =>
        (acts ++ consumed path ++ [ScriptParsed path], parseScript f path)
    end.

(** [Main], lines 92-122: the interpreter, the event, the script, the run. *)
Definition start (fuel : nat) (vars : mainVars) (prog : string)
    (params : list string) : list action * nat :=
  match interp_New params with
  | Some err => ([Logged "error creating interpreter: %v" [err]], 1)
  | None =>
      match readEvent (eventFile vars) with
      | (acts, Error err) =>
          (acts ++ [Logged "error reading event file: %v" [err]], 1)
      | (acts, Ok event) =>
          match readScript prog with
          | (acts', Error err) =>
              (acts ++ acts' ++ [Logged "error reading script file: %v" [err]], 1)
          | (acts', Ok script) =>
              let p := {| event := event; defaultExec := interp_DefaultExecHandler |} in
              match Runner_Run (exec fuel p) params script with
              | Some err =>
                  (acts ++ acts' ++ [ScriptRun; Logged "script error: %v" [err]], 1)
              | None => (acts ++ acts' ++ [ScriptRun], 0)
              end
          end
      end
  end.

(** [Prog.Main]: what it does and the exit status. *)
Definition Main (fuel : nat) (args : list string) : list action * nat :=
  match flagv.Parse main_flags main_vars0 args with
  | inl flagv.ErrHelp => ([FlagPrinted flagv.ErrHelp], 2)
  | inl err => ([FlagPrinted err; LoggedFlagError err], 1)
  | inr (vars, Args) =>
      if rawScript vars && (List.length Args =? 0)%nat then
        ([Logged "no commands given" []], 1)
      else if negb (rawScript vars) && (List.length Args =? 0)%nat then
        ([Logged "no script file given" []], 1)
      else if rawScript vars then
        let '(srcArgs, parArgs) := split_params Args in
        let prog := (shebang ++ strings.Join srcArgs LF)%string in
        start fuel vars prog parArgs
      else
        let prog := hd "" Args in
        let params := tl Args in
        if String.eqb prog "-" && String.eqb (eventFile vars) "-" then
          ([Logged "both --event and program and stdin: only one can be read from standard input" []], 1)
        else start fuel vars prog params
  end.

End Startup.

(* ------------------------------------------------------------------ *)
(** ** Vocabulary of the further statements *)


Section Panics.
Context `{Collaborators}.


End Panics.

(** Every line logged among [out] carries [prefix]. *)
Definition logged_with (prefix : string) (out : list effect) : Prop :=
  forall p l, In (Stderr p l) out -> p = prefix.

(** Texts written one after the other. *)
Definition written_texts (texts : list string) : string :=
  fold_right String.append "" texts.

(** The lines of a JSON stream: every text followed by a line feed. *)
Definition json_lines (texts : list string) : string :=
  written_texts (map (fun text => (text ++ LF)%string) texts).

(* ------------------------------------------------------------------ *)
(** ** Sample collaborators

    One small instance of [Collaborators], to run the program on concrete
    commands: a query engine that knows the queries [.], [.[]], [type]
    (which panics on a value of a type gojq does not know) and
    [1, error, 2] (whose result sequence is 1, an error carrying the input,
    2), rejects [[] as malformed and takes any other string as the call of
    an undefined function; a decoder for streams of documents separated by
    [---] lines, which knows the timestamp [2001-12-14] and the mapping
    [1: 2] and takes any other document as a plain scalar, a string;
    encoders for scalars. *)

Module Sample.

Inductive query : Type :=
| Identity
| Each
| TypeOf
| OneErrorTwo
| Call (name : string).

Definition Parse (queryStr : string) : result query :=
  if String.eqb queryStr "." then Ok Identity
  else if String.eqb queryStr ".[]" then Ok Each
  else if String.eqb queryStr "type" then Ok TypeOf
  else if String.eqb queryStr "1, error, 2" then Ok OneErrorTwo
  else if String.eqb queryStr "[" then Error "unexpected EOF"
  else Ok (Call queryStr).

(** [fmt.Sprint] on scalars, on a [time.Time] and on a
    [map[interface{}]interface{}] (written [map[key:value ...]]). *)
Fixpoint Sprint (v : value) : string :=
  match v with
  | VNil => "<nil>"
  | VBool true => "true"
  | VBool false => "false"
  | VInt n | VBigInt n => NilZero.string_of_int (Z.to_int n)
  | VMapAny entries =>
      ("map["
       ++ String.concat " "
            (map (fun entry =>
                    match entry with
                    | (k, x) => Sprint k ++ ":" ++ Sprint x
                    end) entries)
       ++ "]")%string
  | VTime stamp => stamp
  | _ => ""
  end.

(** The name gojq gives the type of a value; it panics on the others. *)
Definition type_name (v : value) : item :=
  match v with
  | VNil => Val (VString "null")
  | VBool _ => Val (VString "boolean")
  | VInt _ | VBigInt _ | VFloat _ => Val (VString "number")
  | VString _ => Val (VString "string")
  | VSlice _ => Val (VString "array")
  | VMap _ => Val (VString "object")
  | VMapAny _ =>
      Panicked ("invalid type: map[interface {}]interface {} (" ++ Sprint v ++ ")")
  | VTime _ => Panicked ("invalid type: time.Time (" ++ Sprint v ++ ")")
  end.

Definition Run (q : query) (input : value) (i : nat) : option item :=
  match q with
  | Identity => nth_error [Val input] i
  | Each =>
      match input with
      | VSlice elems => nth_error (map Val elems) i
      | _ => nth_error [Err "cannot iterate over input"] i
      end
  | TypeOf => nth_error [type_name input] i
  | OneErrorTwo =>
      nth_error [Val (VInt 1);
                 Err match input with VString s => s | _ => Sprint input end;
                 Val (VInt 2)] i
  | Call name => nth_error [Err ("function not defined: " ++ name ++ "/0")%string] i
  end.

(** The lines of [s]; [line] is the line read so far. *)
Fixpoint split_lines (s : string) (line : string) : list string :=
  match s with
  | EmptyString => [line]
  | String c s' =>
      if Ascii.eqb c (ascii_of_nat 10) then line :: split_lines s' ""
      else split_lines s' (line ++ String c EmptyString)
  end.

(** The value of a document: a timestamp is decoded to a [time.Time], a
    mapping with an integer key to a [map[interface{}]interface{}]. *)
Definition scalar (s : string) : value :=
  if String.eqb s "2001-12-14" then VTime "2001-12-14 00:00:00 +0000 UTC"
  else if String.eqb s "1: 2" then VMapAny [(VInt 1, VInt 2)]
  else VString s.

Definition flush (doc : option string) : list value :=
  match doc with
  | Some s => [scalar s]
  | None => []
  end.

(** The documents of a list of lines; [doc] is the scalar of the document
    read so far (a plain scalar folds its line breaks into spaces). *)
Fixpoint documents (lines : list string) (doc : option string) : list value :=
  match lines with
  | [] => flush doc
  | l :: lines' =>
      if String.eqb l "---" then flush doc ++ documents lines' None
      else if String.eqb l "" then documents lines' doc
      else documents lines'
             (Some match doc with
                   | Some s => (s ++ " " ++ l)%string
                   | None => l
                   end)
  end.

Definition Decoder (r : reader) : list value * option string :=
  (documents (split_lines (data r) "") None, fault r).

Definition quote : string := String (ascii_of_nat 34) EmptyString.

(** JSON for scalars without characters to escape. *)
Definition encoding (v : value) : result string :=
  match v with
  | VNil => Ok "null"
  | VBool _ | VInt _ | VBigInt _ => Ok (Sprint v)
  | VString s => Ok (quote ++ s ++ quote)%string
  | _ => Error "unsupported value"
  end.

(** YAML for strings that need no quoting. *)
Definition document (n : nat) (v : value) : result string :=
  match v with
  | VString s => Ok ((if (n =? 0)%nat then "" else "---" ++ LF) ++ s ++ LF)%string
  | _ => Error "unsupported value"
  end.

Definition collaborators : Collaborators := {|
  Query := query;
  gojq_Parse := Parse;
  Query_Run := Run;
  yaml_Decoder := Decoder;
  yaml_Encoder_Encode := document;
  json_encoding := fun _ _ => encoding;
  strconv_FormatFloat := fun _ _ _ _ => "";
  fmt_Sprint := Sprint
|}.

(** An environment with the scalars [v = word], [t = 2001-12-14],
    [m = 1: 2] and [docs = a LF --- LF b] (two documents), the indexed
    [PATH = [/usr/bin; /bin]] and the associative [assoc]; every other
    name is unset. *)
Definition env (name : string) : expand.Var :=
  if String.eqb name "v" then
    {| expand.Kind := expand.String; expand.Str := "word"; expand.List := [] |}
  else if String.eqb name "t" then
    {| expand.Kind := expand.String; expand.Str := "2001-12-14"; expand.List := [] |}
  else if String.eqb name "m" then
    {| expand.Kind := expand.String; expand.Str := "1: 2"; expand.List := [] |}
  else if String.eqb name "docs" then
    {| expand.Kind := expand.String;
       expand.Str := "a" ++ LF ++ "---" ++ LF ++ "b";
       expand.List := [] |}
  else if String.eqb name "PATH" then
    {| expand.Kind := expand.Indexed; expand.Str := "";
       expand.List := ["/usr/bin"; "/bin"] |}
  else if String.eqb name "assoc" then
    {| expand.Kind := expand.Associative; expand.Str := ""; expand.List := [] |}
  else
    {| expand.Kind := expand.Unset; expand.Str := ""; expand.List := [] |}.

(** The command context: [env], and the empty standard input the program
    gives its runner ([nullStream]). *)
Definition ctx : interp.HandlerContext :=
  {| interp.Env := env; interp.Stdin := strings_reader.NewReader "" |}.

(** A program whose default handler finds no command. *)
Definition prog : Prog :=
  {| event := VMap [];
     defaultExec := fun _ _ => Return [] (Some (interp.NewExitStatus 127)) |}.

(** The program on the sample collaborators. *)
Definition run := @run collaborators.
Definition decode_loop := @decode_loop collaborators.
Definition filter_reader := @filter_reader collaborators.
Definition exec := @exec collaborators.

End Sample.

(* ------------------------------------------------------------------ *)
(** ** A sample system

    One small instance of [System]: the files [event.yml] (an empty
    mapping) and [check.sh], an empty mapping on standard input, a decoder
    that knows the empty mapping, a parser that takes any text that can be
    read, an interpreter that accepts every parameter list and runs every
    script without error. *)

Module SampleSystem.

Definition Open (path : string) : result reader :=
  if String.eqb path "event.yml" then Ok (strings_reader.NewReader "{}")
  else if String.eqb path "check.sh" then Ok (strings_reader.NewReader "event .")
  else Error "no such file or directory".

Definition Unmarshal (text : string) : result value :=
  if String.eqb text "{}" then Ok (VMap []) else Error "cannot unmarshal".

Definition ParseText (f : reader) (name : string) : result string :=
  match fault f with
  | Some err => Error err
  | None => Ok (data f)
  end.

Definition system : System := {|
  os_Stdin := strings_reader.NewReader "{}";
  os_Open := Open;
  yaml_Unmarshal := Unmarshal;
  File := string;
  Parser_Parse := ParseText;
  Parser_Incomplete := fun _ _ => false;
  interp_DefaultExecHandler := defaultExec Sample.prog;
  interp_New := fun _ => None;
  Runner_Run := fun _ _ _ => None
|}.

Definition Main := @Main Sample.collaborators system.
Definition readScript := @readScript system.
Definition readEvent := @readEvent system.

End SampleSystem.

(* ------------------------------------------------------------------ *)
(** ** Effects and strings *)

Lemma after_nil (k : outcome) : after [] k = k.
Proof. destruct k; reflexivity. Qed.

Lemma after_app (a b : list effect) (k : outcome) :
  after (a ++ b) k = after a (after b k).
Proof. destruct k; simpl; now rewrite app_assoc. Qed.

Lemma effects_of_after (out : list effect) (k : outcome) :
  effects_of (after out k) = out ++ effects_of k.
Proof. now destruct k. Qed.

Lemma append_assoc (a b c : string) :
  ((a ++ b) ++ c = a ++ (b ++ c))%string.
Proof. induction a as [|x a IH]; simpl; [reflexivity | now rewrite IH]. Qed.

Lemma append_empty_r (a : string) : (a ++ "")%string = a.
Proof. induction a as [|x a IH]; simpl; [reflexivity | now rewrite IH]. Qed.

Lemma stdout_of_app (a b : list effect) :
  stdout_of (a ++ b) = (stdout_of a ++ stdout_of b)%string.
Proof.
  induction a as [|e a IH]; simpl; [reflexivity|].
  destruct e; simpl; rewrite IH; try reflexivity.
  symmetry. apply append_assoc.
Qed.

Lemma compiles_app (a b : list effect) :
  compiles (a ++ b) = compiles a + compiles b.
Proof.
  induction a as [|e a IH]; simpl; [reflexivity|].
  destruct e; simpl; rewrite IH; reflexivity.
Qed.

Lemma substring_whole (s : string) : substring 0 (String.length s) s = s.
Proof. induction s as [|c s IH]; simpl; [reflexivity | now rewrite IH]. Qed.

Lemma slice_to_0 (s : string) : slice_to s 0 = "".
Proof. now destruct s. Qed.

Lemma HasPrefix_at (name : string) : strings.HasPrefix ("@" ++ name) "@" = true.
Proof.
  unfold strings.HasPrefix, slice_to. simpl.
  fold (slice_to name 0). now rewrite slice_to_0.
Qed.

Lemma TrimPrefix_at (name : string) :
  strings.TrimPrefix ("@" ++ name) "@" = name.
Proof.
  unfold strings.TrimPrefix. rewrite HasPrefix_at.
  unfold slice_from. simpl. rewrite Nat.sub_0_r. apply substring_whole.
Qed.

Lemma HasPrefix_at_inv (cmd : string) :
  strings.HasPrefix cmd "@" = true -> exists name, cmd = ("@" ++ name)%string.
Proof.
  unfold strings.HasPrefix, slice_to. destruct cmd as [|c cmd]; simpl.
  - discriminate.
  - fold (slice_to cmd 0). rewrite slice_to_0. simpl.
    destruct (Ascii.eqb_spec c "@") as [->|]; [|discriminate].
    now exists cmd.
Qed.

(* ------------------------------------------------------------------ *)
(** ** Package flag: arguments appended to an argument vector *)

Section FlagParse.
Variable V : Type.
Variable f : flag.FlagSet V.

(** An error is found before the end of the vector. *)
Lemma Parse_app_failed (args more : list string) :
  forall v e,
    flag.Parse f v args = inl e -> flag.Parse f v (args ++ more) = inl e.
Proof.
  induction args as [|s args IH]; intros v e; simpl; [discriminate|].
  destruct (flag.parseOne f v s); try discriminate; auto.
Qed.

(** Positional arguments stay positional, and what is appended joins them. *)
Lemma Parse_app_positional (args more : list string) :
  forall v v' rest,
    flag.Parse f v args = inr (v', rest) -> rest <> [] ->
    flag.Parse f v (args ++ more) = inr (v', rest ++ more).
Proof.
  induction args as [|s args IH]; intros v v' rest; simpl.
  - intros [= <- <-]. congruence.
  - destruct (flag.parseOne f v s); try discriminate; auto.
    + intros [= <- <-] _. reflexivity.
    + intros [= <- <-] _. reflexivity.
Qed.

(** After options only, an appended [.] is the first positional argument. *)
Lemma Parse_app_dot (args more : list string) :
  forall v v',
    flag.Parse f v args = inr (v', []) ->
    flag.Parse f v (args ++ "." :: more) = inr (v', "." :: more).
Proof.
  induction args as [|s args IH]; intros v v'; simpl.
  - intros [= <-]. reflexivity.
  - destruct (flag.parseOne f v s); try discriminate; auto.
    intros [= <- ->]. reflexivity.
Qed.

End FlagParse.

(** The parser on concrete argument vectors. *)

Example Parse_options_then_positional :
  flag.Parse query_flags query_vars0 ["-R"; "--json=false"; "-p"; "."; "-j"]
  = inr ({| rawInput := true;
            filter := {| pretty := true; json := false; yaml := false;
                         logger := "query: " |} |}, ["."; "-j"]).
Proof. reflexivity. Qed.

Example Parse_json_and_yaml :
  flag.Parse query_flags query_vars0 ["-j"; "-Y"]
  = inr ({| rawInput := false;
            filter := {| pretty := false; json := true; yaml := true;
                         logger := "query: " |} |}, []).
Proof. reflexivity. Qed.

Example Parse_terminator :
  flag.Parse query_flags query_vars0 ["-j"; "--"; "-Y"]
  = inr ({| rawInput := false; filter := set_json true (new_jsonFilter "query: ") |},
         ["-Y"]).
Proof. reflexivity. Qed.

Example Parse_single_dash :
  flag.Parse query_flags query_vars0 ["-"; "v"] = inr (query_vars0, ["-"; "v"]).
Proof. reflexivity. Qed.

Example Parse_failures :
  flag.Parse query_flags query_vars0 ["-h"] = inl flag.ErrHelp
  /\ flag.Parse query_flags query_vars0 ["-x"; "."] = inl (flag.NotDefined "x")
  /\ flag.Parse query_flags query_vars0 ["---j"] = inl (flag.BadSyntax "---j")
  /\ flag.Parse query_flags query_vars0 ["-j=yes"] = inl (flag.InvalidBool "yes" "j")
  /\ flag.Parse event_flags (new_jsonFilter "event: ") ["-R"]
       = inl (flag.NotDefined "R").
Proof. repeat split. Qed.

(* ------------------------------------------------------------------ *)
(** ** The input source *)

Lemma source_reader_stdin (h : interp.HandlerContext) :
  source_reader h "-" = interp.Stdin h.
Proof. reflexivity. Qed.

Lemma source_reader_variable (h : interp.HandlerContext) (source : string) :
  source <> "-" ->
  source_reader h source
    = strings_reader.NewReader (variable_text (interp.Env h source)).
Proof.
  intros Hs. unfold source_reader, variable_text, strings.Join.
  apply String.eqb_neq in Hs. rewrite Hs. simpl.
  now destruct (expand.Kind (interp.Env h source)).
Qed.

(* ------------------------------------------------------------------ *)
(** ** The dispatcher *)

Section Dispatcher.
Context `{Collaborators}.

Lemma exec_at (fuel : nat) (p : Prog) (h : interp.HandlerContext)
    (name : string) (args : list string) :
  name <> "" ->
  exec fuel p h (("@" ++ name)%string :: args) =
    if negb (expand.Kind_eqb (expand.Kind (interp.Env h name)) expand.String)
       && negb (expand.Kind_eqb (expand.Kind (interp.Env h name)) expand.Indexed)
    then defaultExec p h (("@" ++ name)%string :: args)
    else filterJSON fuel h (Some name) ("query" :: args).
Proof.
  intros Hname. unfold exec.
  change (("@" ++ name)%string =? "query")%string with false.
  change (("@" ++ name)%string =? "event")%string with false.
  rewrite HasPrefix_at, TrimPrefix_at.
  replace (("@" ++ name)%string =? "@")%string with false; [reflexivity|].
  destruct name; [congruence | reflexivity].
Qed.

(** The forced variable is appended to the positional arguments, after a
    [.] when there are none. *)
Lemma filterJSON_forced (fuel : nat) (h : interp.HandlerContext)
    (name cmd : string) (args : list string) :
  filterJSON fuel h (Some name) (cmd :: args) =
    match flag.Parse query_flags query_vars0 args with
    | inr (_, []) => filterJSON fuel h None (cmd :: args ++ ["."; name])
    | _ => filterJSON fuel h None (cmd :: args ++ [name])
    end.
Proof.
  unfold filterJSON. fold query_vars0.
  destruct (flag.Parse query_flags query_vars0 args) as [e|[vars rest]] eqn:E.
  - now rewrite (Parse_app_failed _ _ [name] _ E).
  - destruct rest as [|a rest].
    + now rewrite (Parse_app_dot _ _ [name] _ E).
    + rewrite (Parse_app_positional _ _ [name] _ E) by discriminate.
      reflexivity.
Qed.

(** C3, as amended.  With [name] non-empty and bound to a scalar-string or
    indexed variable, [@name args...] is [query args... name] when
    [args] holds a positional argument or an option that fails to parse,
    and [query args... . name] when [args] holds options only. *)
Theorem at_name_is_query_on_name (fuel : nat) (p : Prog)
    (h : interp.HandlerContext) (name : string) (args : list string) :
  name <> "" ->
  expand.Kind (interp.Env h name) = expand.String
    \/ expand.Kind (interp.Env h name) = expand.Indexed ->
  exec fuel p h (("@" ++ name)%string :: args) =
    match flag.Parse query_flags query_vars0 args with
    | inr (_, []) => exec fuel p h ("query" :: args ++ ["."; name])
    | _ => exec fuel p h ("query" :: args ++ [name])
    end.
Proof.
  intros Hname Hkind. rewrite exec_at by assumption.
  replace (negb _ && negb _) with false by (destruct Hkind as [-> | ->]; reflexivity).
  rewrite filterJSON_forced.
  destruct (flag.Parse query_flags query_vars0 args) as [e|[vars [|a rest]]];
    reflexivity.
Qed.

(** X11.  A source given after [@name] is not replaced: with the forced name
    the command has three positional arguments or more. *)
Lemma at_name_with_source (fuel : nat) (p : Prog) (h : interp.HandlerContext)
    (name : string) (args : list string) (vars : queryVars)
    (queryStr source : string) (rest : list string) :
  name <> "" ->
  expand.Kind (interp.Env h name) = expand.String
    \/ expand.Kind (interp.Env h name) = expand.Indexed ->
  flag.Parse query_flags query_vars0 args
    = inr (vars, queryStr :: source :: rest) ->
  exec fuel p h (("@" ++ name)%string :: args) =
    Return [Stderr "query: "
              (log_Printf "too many argument to query: expected 0..2" [])]
           (Some (interp.NewExitStatus 1)).
Proof.
  intros Hname Hkind Hparse. rewrite exec_at by assumption.
  replace (negb _ && negb _) with false by (destruct Hkind as [-> | ->]; reflexivity).
  unfold filterJSON. fold query_vars0. rewrite Hparse.
  destruct rest; reflexivity.
Qed.

(** C7.  A command that starts with [@] goes to the default exec handler
    when it is exactly [@], when the variable named after the [@] is
    unset, and when its kind is neither scalar-string nor indexed. *)
Theorem at_falls_through (fuel : nat) (p : Prog) (h : interp.HandlerContext)
    (cmd : string) (rest : list string) :
  strings.HasPrefix cmd "@" = true ->
  cmd = "@"
    \/ expand.Kind (interp.Env h (strings.TrimPrefix cmd "@")) = expand.Unset
    \/ (expand.Kind (interp.Env h (strings.TrimPrefix cmd "@")) <> expand.String
        /\ expand.Kind (interp.Env h (strings.TrimPrefix cmd "@")) <> expand.Indexed) ->
  exec fuel p h (cmd :: rest) = defaultExec p h (cmd :: rest).
Proof.
  intros Hat Hcase.
  destruct (HasPrefix_at_inv _ Hat) as [name ->].
  destruct name as [|c name]; [reflexivity|].
  rewrite exec_at by discriminate.
  rewrite TrimPrefix_at in Hcase.
  destruct Hcase as [E | [E | [E1 E2]]].
  - discriminate E.
  - now rewrite E.
  - destruct (expand.Kind (interp.Env h (String c name))); simpl; congruence.
Qed.

(** C10.  With nothing after [@name], the query is [.] and [name] is the
    input source, so the input is the text of the variable (for every name
    but [-], which as a source means standard input): the command is
    [query . name]. *)
Theorem at_name_alone (fuel : nat) (p : Prog) (h : interp.HandlerContext)
    (name : string) :
  name <> "" ->
  expand.Kind (interp.Env h name) = expand.String
    \/ expand.Kind (interp.Env h name) = expand.Indexed ->
  exec fuel p h [("@" ++ name)%string] =
    filter_reader fuel query_vars0 "." (source_reader h name)
  /\ (name <> "-" ->
      exec fuel p h [("@" ++ name)%string] =
        filter_reader fuel query_vars0 "."
          (strings_reader.NewReader (variable_text (interp.Env h name))))
  /\ exec fuel p h [("@" ++ name)%string] = exec fuel p h ["query"; "."; name].
Proof.
  intros Hname Hkind. rewrite exec_at by assumption.
  replace (negb _ && negb _) with false by (destruct Hkind as [-> | ->]; reflexivity).
  split; [reflexivity|]. split; [|reflexivity].
  intros Hdash. rewrite <- (source_reader_variable h Hdash). reflexivity.
Qed.

End Dispatcher.

(** C3 as stated fails: [@v] prints the variable [v], while [query v] takes
    [v] as the query string and reads the empty standard input. *)
Lemma at_name_is_not_query_name :
  ~ (forall (C : Collaborators) fuel p h name args,
        name <> "" ->
        expand.Kind (interp.Env h name) = expand.String
          \/ expand.Kind (interp.Env h name) = expand.Indexed ->
        @exec C fuel p h (("@" ++ name)%string :: args) =
          @exec C fuel p h ("query" :: args ++ [name])).
Proof.
  intros claim.
  specialize (claim Sample.collaborators 5 Sample.prog Sample.ctx "v" []).
  vm_compute in claim.
  assert (E : Return [Parsed "."; Ran "." (VString "word"); Stdout "word"] None
              = Return [] None) by (apply claim; [discriminate | now left]).
  discriminate E.
Qed.

Lemma at_name_is_query_on_name_witness :
  Sample.exec 5 Sample.prog Sample.ctx ["@PATH"; "-R"]
    = Sample.exec 5 Sample.prog Sample.ctx ["query"; "-R"; "."; "PATH"]
  /\ Sample.exec 5 Sample.prog Sample.ctx ["@PATH"; "-R"; ".[]"]
    = Sample.exec 5 Sample.prog Sample.ctx ["query"; "-R"; ".[]"; "PATH"].
Proof.
  split.
  - apply (@at_name_is_query_on_name Sample.collaborators 5 Sample.prog
             Sample.ctx "PATH" ["-R"]); [discriminate | now right].
  - apply (@at_name_is_query_on_name Sample.collaborators 5 Sample.prog
             Sample.ctx "PATH" ["-R"; ".[]"]); [discriminate | now right].
Defined.

Lemma at_falls_through_witness :
  Sample.exec 5 Sample.prog Sample.ctx ["@assoc"; "."]
    = defaultExec Sample.prog Sample.ctx ["@assoc"; "."].
Proof.
  apply (@at_falls_through Sample.collaborators 5 Sample.prog Sample.ctx
           "@assoc" ["."]).
  - reflexivity.
  - right. right. split; discriminate.
Defined.

Lemma at_name_alone_witness :
  Sample.exec 5 Sample.prog Sample.ctx ["@v"]
    = Sample.filter_reader 5 query_vars0 "." (source_reader Sample.ctx "v")
  /\ ("v" <> "-" ->
      Sample.exec 5 Sample.prog Sample.ctx ["@v"]
        = Sample.filter_reader 5 query_vars0 "." (strings_reader.NewReader "word"))
  /\ Sample.exec 5 Sample.prog Sample.ctx ["@v"]
    = Sample.exec 5 Sample.prog Sample.ctx ["query"; "."; "v"].
Proof.
  apply (@at_name_alone Sample.collaborators 5 Sample.prog Sample.ctx "v").
  - discriminate.
  - now left.
Defined.

(* ------------------------------------------------------------------ *)
(** ** The encoders *)

Section Encoders.
Context `{Collaborators}.

(** An encoder writes to standard output only. *)
Lemma Encode_writes_only (enc : Encoder) (val : value) :
  forall enc' out err,
    Encode enc val = (enc', out, err) -> compiles out = 0.
Proof.
  intros enc' out err. destruct enc as [esc ind|n|w]; simpl.
  - now destruct (json_encoding esc ind val); intros [= <- <- <-].
  - now destruct (yaml_Encoder_Encode n val); intros [= <- <- <-].
  - unfold plainEncoder_Encode.
    destruct (match val with
              | VMap _ | VSlice _ => json_Marshal val
              | VString s => Ok s
              | VFloat f => Ok (strconv_FormatFloat f "f" (-1) 64)
              | _ => Ok (fmt_Sprint val)
              end); intros [= <- <- <-]; now destruct w.
Qed.

Lemma plainEncoder_Encode_text (written : bool) (val : value) (text : string) :
  plain_text val = Ok text ->
  Encode (plainEncoder written) val =
    (plainEncoder true,
     (if written then [Stdout LF] else []) ++ [Stdout text], None).
Proof.
  simpl. unfold plainEncoder_Encode, plain_text, json_Marshal.
  destruct val; intros E; try (injection E as <-); try reflexivity;
    now rewrite E.
Qed.

Lemma encode_all_cons (enc : Encoder) (val : value) (vals : list value) :
  encode_all enc (val :: vals) =
    match Encode enc val with
    | (_, out, Some err) => (out, Some err)
    | (enc', out, None) =>
        let '(out', err) := encode_all enc' vals in (out ++ out', err)
    end.
Proof. reflexivity. Qed.

(** In plain mode the texts are written with one line feed before each
    but the first; after a value was written, before the first too. *)
Lemma encode_all_plain (vals : list value) (texts : list string) :
  Forall2 (fun val text => plain_text val = Ok text) vals texts ->
  forall written,
    exists out,
      encode_all (plainEncoder written) vals = (out, None)
      /\ stdout_of out =
           match texts with
           | [] => ""
           | _ => ((if written then LF else "") ++ String.concat LF texts)%string
           end.
Proof.
  induction 1 as [|val text vals texts Hval _ IH]; intros written.
  - exists []. now split.
  - rewrite encode_all_cons, (plainEncoder_Encode_text written _ Hval).
    destruct (IH true) as (out' & -> & Hout').
    eexists. split; [reflexivity|].
    rewrite !stdout_of_app, Hout'. simpl.
    destruct texts as [|text' texts]; destruct written; simpl;
      rewrite ?append_empty_r; reflexivity.
Qed.

End Encoders.

(* ------------------------------------------------------------------ *)
(** ** The filter *)

Section Filter.
Context `{Collaborators}.

(** The loop of [run] on a sequence that holds the values [vals] from
    index [i] on and then ends ([e = None]) or yields an error ([e] is its
    message). *)
Lemma run_loop_prefix (j : jsonFilter) (iter : nat -> option item)
    (vals : list value) (e : option string) :
  forall fuel enc i,
    (forall k val, nth_error vals k = Some val -> iter (i + k) = Some (Val val)) ->
    iter (i + List.length vals) = option_map Err e ->
    List.length vals < fuel ->
    run_loop fuel j iter enc i =
      match encode_all enc vals, e with
      | (out, Some err), _ =>
          Return (out ++ [Stderr (logger j) (log_Printf "encoding error: %v" [err])])
                 (Some (interp.NewExitStatus 1))
      | (out, None), Some e =>
          Return (out ++ [Stderr (logger j) (log_Printf "query error: %v" [e])])
                 (Some (interp.NewExitStatus 1))
      | (out, None), None => Return out None
      end.
Proof.
  induction vals as [|val vals IH]; intros fuel enc i Hvals Hstop Hfuel;
    (destruct fuel as [|fuel]; [simpl in Hfuel; lia|]); simpl in *.
  - rewrite Nat.add_0_r in Hstop. rewrite Hstop. now destruct e.
  - rewrite <- (Nat.add_0_r i) at 1. rewrite (Hvals 0 val eq_refl).
    destruct (Encode enc val) as [[enc' out] [err|]]; [reflexivity|].
    rewrite (IH fuel enc' (S i)); try lia.
    + destruct (encode_all enc' vals) as [out' [err|]]; simpl;
        [|destruct e]; simpl; now rewrite ?app_assoc.
    + intros k v Hk. rewrite <- (Hvals (S k) v Hk). f_equal. lia.
    + rewrite <- Hstop. f_equal. lia.
Qed.

Lemma yields_values (iter : nat -> option item) (vals : list value)
    (rest : list item) :
  yields iter (map Val vals ++ rest) ->
  forall k val, nth_error vals k = Some val -> iter (0 + k) = Some (Val val).
Proof.
  intros Hy k val Hk. simpl. apply Hy.
  assert (Hlt : k < List.length (map Val vals)).
  { rewrite length_map. apply nth_error_Some. rewrite Hk. discriminate. }
  rewrite nth_error_app1 by exact Hlt.
  now rewrite nth_error_map, Hk.
Qed.

Lemma yields_next (iter : nat -> option item) (vals : list value)
    (x : item) (rest : list item) :
  yields iter (map Val vals ++ x :: rest) ->
  iter (0 + List.length vals) = Some x.
Proof.
  intros Hy. simpl. apply Hy.
  rewrite nth_error_app2; rewrite length_map; [|lia].
  now rewrite Nat.sub_diag.
Qed.

(** The documents before a failing one only add their output. *)
Lemma decode_loop_app (fuel : nat) (j : jsonFilter) (queryStr : string)
    (docs : list value) (outs : list (list effect)) :
  Forall2 (fun doc out => run fuel j queryStr doc = Return out None) docs outs ->
  forall later ending,
    decode_loop fuel j queryStr (docs ++ later) ending =
      after (concat outs) (decode_loop fuel j queryStr later ending).
Proof.
  induction 1 as [|doc out docs outs Hdoc _ IH]; intros later ending; simpl.
  - now rewrite after_nil.
  - now rewrite Hdoc, IH, after_app.
Qed.

(** C4.  When the result sequence of a document yields the values [vals]
    and then an error, [run] writes the encodings of [vals] in order (up
    to the first that fails to encode), logs the error and returns status
    1; what the sequence holds after the error ([more]) and the documents
    after this one ([later], [ending]) are not touched. *)
Theorem query_error_stops (fuel : nat) (j : jsonFilter) (queryStr : string)
    (query : Query) (docs : list value) (outs : list (list effect))
    (d : value) (later : list value) (ending : option string)
    (vals : list value) (e : string) (more : list item) :
  gojq_Parse queryStr = Ok query ->
  Forall2 (fun doc out => run fuel j queryStr doc = Return out None) docs outs ->
  yields (Query_Run query d) (map Val vals ++ Err e :: more) ->
  List.length vals < fuel ->
  let written := fst (encode_all (encoder j) vals) in
  let failure := snd (encode_all (encoder j) vals) in
  let out := [Parsed queryStr; Ran queryStr d] ++ written
               ++ [Stderr (logger j) (stop_message e failure)] in
  run fuel j queryStr d = Return out (Some (interp.NewExitStatus 1))
  /\ decode_loop fuel j queryStr (docs ++ d :: later) ending
       = Return (concat outs ++ out) (Some (interp.NewExitStatus 1)).
Proof.
  intros Hparse Hdocs Hy Hfuel written failure out.
  assert (Hrun : run fuel j queryStr d = Return out (Some (interp.NewExitStatus 1))).
  { unfold run. rewrite Hparse.
    rewrite (run_loop_prefix j _ vals (Some e));
      [| now apply yields_values with (rest := Err e :: more)
       | now apply yields_next with (rest := more) | assumption].
    subst out written failure.
    destruct (encode_all (encoder j) vals) as [o [err|]]; reflexivity. }
  split; [exact Hrun|].
  rewrite (@decode_loop_app fuel j queryStr docs outs Hdocs). simpl.
  now rewrite Hrun.
Qed.

Lemma run_plain_values (fuel : nat) (p : bool) (prefix : string)
    (queryStr : string) (query : Query) (input : value)
    (vals : list value) (texts : list string) :
  gojq_Parse queryStr = Ok query ->
  yields (Query_Run query input) (map Val vals) ->
  Query_Run query input (List.length vals) = None ->
  Forall2 (fun val text => plain_text val = Ok text) vals texts ->
  List.length vals < fuel ->
  exists out,
    run fuel {| pretty := p; json := false; yaml := false; logger := prefix |}
        queryStr input = Return out None
    /\ stdout_of out = String.concat LF texts.
Proof.
  intros Hparse Hy Hend Htexts Hfuel. unfold run. rewrite Hparse.
  rewrite (run_loop_prefix _ _ vals None);
    [| intros k v Hk; apply yields_values with (vals := vals) (rest := []);
       [now rewrite app_nil_r | assumption]
     | exact Hend | assumption].
  destruct (encode_all_plain Htexts false) as (out & E & Hout).
  unfold encoder, newPlainEncoder. simpl. rewrite E. simpl.
  eexists. split; [reflexivity|]. simpl. rewrite Hout.
  now destruct texts.
Qed.

(** X18.  The decoding loop in plain mode: the texts of each document are
    joined by line feeds, and the documents follow one another. *)
Lemma plain_documents_concatenated (fuel : nat) (p : bool) (prefix : string)
    (queryStr : string) (query : Query)
    (docs : list value) (textss : list (list string)) :
  gojq_Parse queryStr = Ok query ->
  Forall2 (fun doc texts =>
             exists vals,
               yields (Query_Run query doc) (map Val vals)
               /\ Query_Run query doc (List.length vals) = None
               /\ Forall2 (fun val text => plain_text val = Ok text) vals texts
               /\ List.length vals < fuel) docs textss ->
  exists out,
    decode_loop fuel
        {| pretty := p; json := false; yaml := false; logger := prefix |}
        queryStr docs None = Return out None
    /\ stdout_of out = String.concat "" (map (String.concat LF) textss).
Proof.
  intros Hparse. induction 1 as [|doc texts docs textss Hdoc _ IH].
  - exists []. now split.
  - destruct Hdoc as (vals & Hy & Hend & Htexts & Hfuel).
    destruct (@run_plain_values fuel p prefix queryStr query doc vals texts
                Hparse Hy Hend Htexts Hfuel) as (out & Hrun & Hout).
    destruct IH as (out' & Hloop & Hout').
    exists (out ++ out'). simpl decode_loop. rewrite Hrun, Hloop. simpl.
    split; [reflexivity|].
    rewrite stdout_of_app, Hout, Hout'. simpl.
    destruct (map (String.concat LF) textss) as [|t ts] eqn:E.
    + simpl. apply append_empty_r.
    + reflexivity.
Qed.

(** The separators of one run.  The separator state of the plain encoder
    is set by [Encode] and cleared only where the encoder is built, and it
    is built in [run].  Within one run every text after the first is
    preceded by exactly one line feed, none precedes the first and none
    follows the last. *)
Theorem plain_separators_per_run (fuel : nat) (p : bool) (prefix : string)
    (queryStr : string) (query : Query) (input : value)
    (vals : list value) (texts : list string) :
  gojq_Parse queryStr = Ok query ->
  yields (Query_Run query input) (map Val vals) ->
  Query_Run query input (List.length vals) = None ->
  Forall2 (fun val text => plain_text val = Ok text) vals texts ->
  List.length vals < fuel ->
  encoder {| pretty := p; json := false; yaml := false; logger := prefix |}
    = plainEncoder false
  /\ (forall written val,
        fst (fst (Encode (plainEncoder written) val)) = plainEncoder true)
  /\ exists out,
       run fuel {| pretty := p; json := false; yaml := false; logger := prefix |}
           queryStr input = Return out None
       /\ stdout_of out = String.concat LF texts.
Proof.
  intros Hparse Hy Hend Htexts Hfuel. split; [reflexivity|]. split.
  - intros written val. simpl. unfold plainEncoder_Encode.
    now destruct (match val with
                  | VMap _ | VSlice _ => json_Marshal val
                  | VString s => Ok s
                  | VFloat f => Ok (strconv_FormatFloat f "f" (-1) 64)
                  | _ => Ok (fmt_Sprint val)
                  end).
  - now apply run_plain_values with (query := query) (vals := vals).
Qed.

(** The type switch of the plain encoder.  Without [json] and [yaml] the
    encoder is the plain one, whatever [pretty] is.  It writes a
    [map[string]interface{}] or a slice as [json.Marshal] encodes it (no
    indent), a string as it is, a float as
    [strconv.FormatFloat(val, 'f', -1, 64)] formats it and a value of any
    other type, a mapping with other keys among them, as [fmt.Sprint]
    prints it, after a line feed if a value was written before. *)
Theorem plain_mode_rendering (p : bool) (prefix : string) (written : bool)
    (val : value) :
  encoder {| pretty := p; json := false; yaml := false; logger := prefix |}
    = plainEncoder false
  /\ Encode (plainEncoder written) val =
       let sep := if written then [Stdout LF] else [] in
       match val with
       | VMap _ | VSlice _ =>
           match json_encoding true None val with
           | Ok text => (plainEncoder true, sep ++ [Stdout text], None)
           | Error err => (plainEncoder true, sep, Some err)
           end
       | VString s => (plainEncoder true, sep ++ [Stdout s], None)
       | VFloat f =>
           (plainEncoder true,
            sep ++ [Stdout (strconv_FormatFloat f "f" (-1) 64)], None)
       | VNil | VBool _ | VInt _ | VBigInt _ | VMapAny _ | VTime _ =>
           (plainEncoder true, sep ++ [Stdout (fmt_Sprint val)], None)
       end.
Proof.
  split; [reflexivity|].
  simpl. unfold plainEncoder_Encode, json_Marshal.
  destruct val; try reflexivity;
    now destruct (json_encoding true None _).
Qed.

End Filter.

(* ------------------------------------------------------------------ *)
(** ** Compilations of the query string, and the output mode *)

Section Runs.
Context `{Collaborators}.

Lemma run_loop_compiles (j : jsonFilter) (iter : nat -> option item) :
  forall fuel enc i, compiles (effects_of (run_loop fuel j iter enc i)) = 0.
Proof.
  induction fuel as [|fuel IH]; intros enc i; simpl; [reflexivity|].
  destruct (iter i) as [[val|e|w]|]; try reflexivity.
  destruct (Encode enc val) as [[enc' o] [e|]] eqn:E;
    pose proof (Encode_writes_only _ _ E) as Ho; simpl.
  - now rewrite compiles_app, Ho.
  - now rewrite effects_of_after, compiles_app, Ho, IH.
Qed.

Lemma run_compiles_once (fuel : nat) (j : jsonFilter) (queryStr : string)
    (input : value) :
  compiles (effects_of (run fuel j queryStr input)) = 1.
Proof.
  unfold run. destruct (gojq_Parse queryStr) as [query|msg]; [|reflexivity].
  rewrite effects_of_after. simpl. now rewrite run_loop_compiles.
Qed.

Lemma decode_loop_compiles (fuel : nat) (j : jsonFilter) (queryStr : string)
    (ending : option string) :
  forall docs,
    compiles (effects_of (decode_loop fuel j queryStr docs ending))
      <= List.length docs
    /\ (forall out,
          decode_loop fuel j queryStr docs ending = Return out None ->
          compiles out = List.length docs).
Proof.
  induction docs as [|doc docs [IHle IHeq]]; simpl.
  - destruct ending; simpl; split; auto; now intros out [= <-].
  - pose proof (run_compiles_once fuel j queryStr doc) as Hrun.
    destruct (run fuel j queryStr doc) as [o [e|]|o|o]; simpl in *;
      try (split; [lia | discriminate]).
    rewrite effects_of_after, compiles_app, Hrun. split; [lia|].
    destruct (decode_loop fuel j queryStr docs ending) as [o' e'|o'|o'];
      simpl; try discriminate.
    intros out [= <- ->]. now rewrite compiles_app, Hrun, (IHeq o' eq_refl).
Qed.

Lemma filterEvent_compiles (fuel : nat) (p : Prog) (h : interp.HandlerContext)
    (args : list string) :
  compiles (effects_of (filterEvent fuel p h args)) <= 1.
Proof.
  unfold filterEvent. destruct args as [|cmd args]; [simpl; lia|].
  destruct (flag.Parse event_flags (new_jsonFilter "event: ") args)
    as [[| | |]|[j [|queryStr [|extra rest]]]];
    try (simpl; lia); rewrite run_compiles_once; lia.
Qed.

(** C1, as amended.  Every run of the filter compiles the query string
    exactly once; [event] runs the filter at most once, and so does
    [query] on raw input, while the decoding loop of [query] runs it once
    for each document, so it compiles the query string as many times as
    it processes documents.  When the query string fails to parse, the run
    logs the error and returns status 1 without running the query or
    writing anything, and the loop stops at that document. *)
Theorem query_compiled_once_per_run (fuel : nat) (j : jsonFilter)
    (queryStr : string) (input : value) (docs : list value)
    (ending : option string) :
  compiles (effects_of (run fuel j queryStr input)) = 1
  /\ (forall p h args, compiles (effects_of (filterEvent fuel p h args)) <= 1)
  /\ (forall r,
         compiles (effects_of
                     (filter_reader fuel {| rawInput := true; filter := j |}
                        queryStr r)) <= 1)
  /\ compiles (effects_of (decode_loop fuel j queryStr docs ending))
       <= List.length docs
  /\ (forall out,
         decode_loop fuel j queryStr docs ending = Return out None ->
         compiles out = List.length docs)
  /\ (forall msg,
         gojq_Parse queryStr = Error msg ->
         let failed :=
           Return [Parsed queryStr;
                   Stderr (logger j) (log_Printf "unable to parse query: %v" [msg])]
                  (Some (interp.NewExitStatus 1)) in
         run fuel j queryStr input = failed
         /\ decode_loop fuel j queryStr (input :: docs) ending = failed).
Proof.
  split; [apply run_compiles_once|].
  split; [apply filterEvent_compiles|].
  split; [|split; [|split]].
  - intros r. unfold filter_reader. simpl.
    destruct (fault r); [simpl; lia | rewrite run_compiles_once; lia].
  - apply decode_loop_compiles.
  - apply decode_loop_compiles.
  - intros msg Hmsg failed.
    assert (Hrun : run fuel j queryStr input = failed)
      by (unfold run; now rewrite Hmsg).
    split; [exact Hrun|]. simpl. now rewrite Hrun.
Qed.

Lemma run_loop_logger (j1 j2 : jsonFilter) (iter : nat -> option item) :
  logger j1 = logger j2 ->
  forall fuel enc i, run_loop fuel j1 iter enc i = run_loop fuel j2 iter enc i.
Proof.
  intros Hl. induction fuel as [|fuel IH]; intros enc i; simpl; [reflexivity|].
  destruct (iter i) as [[val|e|w]|]; rewrite ?Hl; try reflexivity.
  destruct (Encode enc val) as [[enc' o] [e|]]; [reflexivity|].
  now rewrite IH.
Qed.

Lemma run_encoder (j1 j2 : jsonFilter) :
  encoder j1 = encoder j2 -> logger j1 = logger j2 ->
  forall fuel queryStr input,
    run fuel j1 queryStr input = run fuel j2 queryStr input.
Proof.
  intros He Hl fuel queryStr input. unfold run.
  destruct (gojq_Parse queryStr).
  - now rewrite He, (run_loop_logger j1 j2 _ Hl).
  - now rewrite Hl.
Qed.

Lemma decode_loop_encoder (j1 j2 : jsonFilter) :
  encoder j1 = encoder j2 -> logger j1 = logger j2 ->
  forall fuel queryStr docs ending,
    decode_loop fuel j1 queryStr docs ending
      = decode_loop fuel j2 queryStr docs ending.
Proof.
  intros He Hl fuel queryStr docs ending.
  induction docs as [|doc docs IH]; simpl.
  - now rewrite Hl.
  - now rewrite (run_encoder j1 j2 He Hl), IH.
Qed.

(** C9.  With [json] and [yaml] both set the encoder is the JSON encoder,
    and a command yields what it yields with [json] alone: on the same
    query and input the outcome is the same whatever [yaml] is, for
    [event] (a single run) and for [query] on raw or decoded input. *)
Theorem json_takes_precedence (fuel : nat) (raw p : bool) (prefix : string)
    (queryStr : string) (input : value) (r : reader) :
  let both := {| pretty := p; json := true; yaml := true; logger := prefix |} in
  let alone := {| pretty := p; json := true; yaml := false; logger := prefix |} in
  encoder both = json_Encoder false (if p then Some ("", "  ") else None)
  /\ run fuel both queryStr input = run fuel alone queryStr input
  /\ filter_reader fuel {| rawInput := raw; filter := both |} queryStr r
       = filter_reader fuel {| rawInput := raw; filter := alone |} queryStr r.
Proof.
  intros both alone.
  assert (He : encoder both = encoder alone) by reflexivity.
  assert (Hl : logger both = logger alone) by reflexivity.
  split; [reflexivity|]. split; [now apply run_encoder|].
  unfold filter_reader. simpl.
  destruct raw.
  - destruct (fault r); [reflexivity | now apply run_encoder].
  - destruct (yaml_Decoder r) as [docs ending]. now apply decode_loop_encoder.
Qed.

End Runs.

(* ------------------------------------------------------------------ *)
(** ** The arguments of [query] *)

Section QueryArguments.
Context `{Collaborators}.

Lemma filterJSON_positional (fuel : nat) (h : interp.HandlerContext)
    (cmd : string) (args : list string)
    (vars : queryVars) (positional : list string) :
  flag.Parse query_flags query_vars0 args = inr (vars, positional) ->
  filterJSON fuel h None (cmd :: args) =
    match positional with
    | [] => filter_reader fuel vars "." (interp.Stdin h)
    | [queryStr] => filter_reader fuel vars queryStr (interp.Stdin h)
    | [queryStr; source] =>
        filter_reader fuel vars queryStr
          (if String.eqb source "-" then interp.Stdin h
           else strings_reader.NewReader (variable_text (interp.Env h source)))
    | _ :: _ :: _ :: _ =>
        Return [Stderr "query: "
                  (log_Printf "too many argument to query: expected 0..2" [])]
               (Some (interp.NewExitStatus 1))
    end.
Proof.
  intros Hparse. unfold filterJSON. fold query_vars0. rewrite Hparse.
  destruct positional as [|queryStr [|source [|extra rest]]]; try reflexivity.
  simpl. destruct (String.eqb_spec source "-") as [->|Hs].
  - reflexivity.
  - now rewrite source_reader_variable.
Qed.

(** C5.  After the options of a [query] command are parsed: no positional
    argument runs [.] on standard input, one is the query string, run on
    standard input, two are the query string and the source, [-] for
    standard input and else the name of a variable of the environment;
    more than two end the command with status 1 and a message, and the
    query is neither compiled nor run. *)
Theorem query_positional_arguments (fuel : nat) (p : Prog)
    (h : interp.HandlerContext) (args : list string)
    (vars : queryVars) (positional : list string) :
  flag.Parse query_flags query_vars0 args = inr (vars, positional) ->
  exec fuel p h ("query" :: args) =
    match positional with
    | [] => filter_reader fuel vars "." (interp.Stdin h)
    | [queryStr] => filter_reader fuel vars queryStr (interp.Stdin h)
    | [queryStr; source] =>
        filter_reader fuel vars queryStr
          (if String.eqb source "-" then interp.Stdin h
           else strings_reader.NewReader (variable_text (interp.Env h source)))
    | _ :: _ :: _ :: _ =>
        Return [Stderr "query: "
                  (log_Printf "too many argument to query: expected 0..2" [])]
               (Some (interp.NewExitStatus 1))
    end.
Proof.
  intros Hparse. change (exec fuel p h ("query" :: args))
    with (filterJSON fuel h None ("query" :: args)).
  now apply filterJSON_positional.
Qed.

(** C8.  When the source of a [query] command is the name of a variable,
    the input is the empty string if the variable is unset or of a kind
    that is neither scalar-string nor indexed, and the elements joined by
    line feeds if it is indexed.  The empty input is no error: in the
    decoding mode, with a decoder that finds no document in it, the
    command returns [nil] and writes nothing. *)
Theorem query_variable_input (fuel : nat) (p : Prog)
    (h : interp.HandlerContext) (args : list string)
    (vars : queryVars) (queryStr source : string) :
  flag.Parse query_flags query_vars0 args = inr (vars, [queryStr; source]) ->
  source <> "-" ->
  let v := interp.Env h source in
  (expand.Kind v <> expand.String -> expand.Kind v <> expand.Indexed ->
     exec fuel p h ("query" :: args)
       = filter_reader fuel vars queryStr (strings_reader.NewReader "")
     /\ (rawInput vars = false ->
         yaml_Decoder (strings_reader.NewReader "") = ([], None) ->
         exec fuel p h ("query" :: args) = Return [] None))
  /\ (expand.Kind v = expand.Indexed ->
        exec fuel p h ("query" :: args)
          = filter_reader fuel vars queryStr
              (strings_reader.NewReader (strings.Join (expand.List v) LF))).
Proof.
  intros Hparse Hs v.
  change (exec fuel p h ("query" :: args))
    with (filterJSON fuel h None ("query" :: args)).
  rewrite (filterJSON_positional fuel h "query" _ Hparse).
  apply String.eqb_neq in Hs. rewrite Hs. unfold variable_text. fold v.
  split.
  - intros HS HI.
    assert (E : match expand.Kind v with
                | expand.String => expand.Str v
                | expand.Indexed => String.concat LF (expand.List v)
                | _ => ""
                end = "") by (destruct (expand.Kind v); congruence).
    rewrite E. split; [reflexivity|].
    intros Hraw Hdec. unfold filter_reader. now rewrite Hraw, Hdec.
  - intros ->. reflexivity.
Qed.

End QueryArguments.

(* ------------------------------------------------------------------ *)
(** ** The program on the sample collaborators *)

(** C1 as stated fails: on the two documents of [docs] one [query] command
    compiles its query string twice, and on the empty standard input the
    malformed query [[] is not compiled at all and the command returns
    [nil]. *)
Lemma query_compiled_per_document :
  (exists out,
      Sample.exec 5 Sample.prog Sample.ctx ["query"; "."; "docs"] = Return out None
      /\ compiles out = 2)
  /\ Sample.Parse "[" = Error "unexpected EOF"
  /\ Sample.exec 5 Sample.prog Sample.ctx ["query"; "["] = Return [] None.
Proof.
  split; [|split; reflexivity].
  eexists. split; reflexivity.
Qed.

Lemma query_compiled_once_per_run_witness :
  Sample.run 5 (new_jsonFilter "query: ") "[" (VString "a")
    = Return [Parsed "[";
              Stderr "query: " (log_Printf "unable to parse query: %v" ["unexpected EOF"])]
             (Some (interp.NewExitStatus 1))
  /\ Sample.decode_loop 5 (new_jsonFilter "query: ") "["
       [VString "a"; VString "b"] None
     = Return [Parsed "[";
               Stderr "query: " (log_Printf "unable to parse query: %v" ["unexpected EOF"])]
              (Some (interp.NewExitStatus 1)).
Proof.
  apply (@query_compiled_once_per_run Sample.collaborators 5
           (new_jsonFilter "query: ") "[" (VString "a") [VString "b"] None).
  reflexivity.
Defined.

(** C2.  The code at the failing input: [run] builds the plain encoder
    anew for every decoded document, so the two documents of [docs] are
    written as [ab], with no line feed between the output of the first
    document and the output of the second, where the claim has [a], a line
    feed, [b]. *)
Lemma plain_documents_not_separated :
  exists out,
    Sample.exec 5 Sample.prog Sample.ctx ["query"; "."; "docs"] = Return out None
    /\ stdout_of out = "ab"
    /\ stdout_of out <> ("a" ++ LF ++ "b")%string.
Proof.
  eexists. split; [reflexivity|]. split; [reflexivity | discriminate].
Qed.

(** C6.  The code at the failing input.  The type switch of
    [plainEncoder.Encode] names [map[string]interface{}] and
    [[]interface{}] only: a mapping with a key that is not a string, which
    the decoder yields as a [map[interface{}]interface{}], falls to the
    default case and is written as [fmt.Sprint] prints it, whatever the
    libraries are, and [json.Marshal] is not asked.  So [query . m] on the
    document [1: 2] writes [map[1:2]], with [-p] or without, where the claim
    (and the comment on [plainEncoder]) has compact JSON. *)
Theorem plain_mapping_not_json :
  (forall (C : Collaborators) (written : bool) (entries : list (value * value)),
      @Encode C (plainEncoder written) (VMapAny entries)
        = (plainEncoder true,
           (if written then [Stdout LF] else [])
             ++ [Stdout (@fmt_Sprint C (VMapAny entries))],
           None))
  /\ Sample.exec 5 Sample.prog Sample.ctx ["query"; "."; "m"]
       = Return [Parsed "."; Ran "." (VMapAny [(VInt 1, VInt 2)]);
                 Stdout "map[1:2]"] None
  /\ Sample.exec 5 Sample.prog Sample.ctx ["query"; "-p"; "."; "m"]
       = Return [Parsed "."; Ran "." (VMapAny [(VInt 1, VInt 2)]);
                 Stdout "map[1:2]"] None.
Proof.
  split; [|split; reflexivity].
  intros C written entries. reflexivity.
Qed.

Lemma plain_separators_per_run_witness :
  exists out,
    Sample.run 5 (new_jsonFilter "query: ") ".[]"
        (VSlice [VString "a"; VBool true; VString "b"]) = Return out None
    /\ stdout_of out = ("a" ++ LF ++ "true" ++ LF ++ "b")%string.
Proof.
  apply (@plain_separators_per_run Sample.collaborators 5 false "query: " ".[]"
           Sample.Each (VSlice [VString "a"; VBool true; VString "b"])
           [VString "a"; VBool true; VString "b"] ["a"; "true"; "b"]).
  - reflexivity.
  - intros i x Hx. exact Hx.
  - reflexivity.
  - repeat constructor.
  - simpl. lia.
Defined.

Lemma query_error_stops_witness :
  Sample.run 5 (new_jsonFilter "query: ") "1, error, 2" (VString "boom")
    = Return [Parsed "1, error, 2"; Ran "1, error, 2" (VString "boom");
              Stdout "1";
              Stderr "query: " (log_Printf "query error: %v" ["boom"])]
             (Some (interp.NewExitStatus 1))
  /\ Sample.decode_loop 5 (new_jsonFilter "query: ") "1, error, 2"
       [VString "boom"; VString "later"] None
     = Return [Parsed "1, error, 2"; Ran "1, error, 2" (VString "boom");
               Stdout "1";
               Stderr "query: " (log_Printf "query error: %v" ["boom"])]
              (Some (interp.NewExitStatus 1)).
Proof.
  apply (@query_error_stops Sample.collaborators 5 (new_jsonFilter "query: ")
           "1, error, 2" Sample.OneErrorTwo [] [] (VString "boom")
           [VString "later"] None [VInt 1] "boom" [Val (VInt 2)]).
  - reflexivity.
  - constructor.
  - intros i x Hx. exact Hx.
  - simpl. lia.
Defined.

Lemma query_positional_arguments_witness :
  Sample.exec 5 Sample.prog Sample.ctx ["query"; "-j"; "."; "v"; "docs"]
    = Return [Stderr "query: "
                (log_Printf "too many argument to query: expected 0..2" [])]
             (Some (interp.NewExitStatus 1)).
Proof.
  apply (@query_positional_arguments Sample.collaborators 5 Sample.prog
           Sample.ctx ["-j"; "."; "v"; "docs"]
           {| rawInput := false; filter := set_json true (new_jsonFilter "query: ") |}
           ["."; "v"; "docs"]).
  reflexivity.
Defined.

Lemma query_variable_input_witness :
  Sample.exec 5 Sample.prog Sample.ctx ["query"; "-R"; "."; "PATH"]
    = Sample.filter_reader 5 {| rawInput := true; filter := new_jsonFilter "query: " |}
        "." (strings_reader.NewReader ("/usr/bin" ++ LF ++ "/bin")).
Proof.
  apply (@query_variable_input Sample.collaborators 5 Sample.prog Sample.ctx
           ["-R"; "."; "PATH"]
           {| rawInput := true; filter := new_jsonFilter "query: " |} "." "PATH").
  - reflexivity.
  - discriminate.
  - reflexivity.
Defined.

(* ------------------------------------------------------------------ *)
(** ** How the built-in commands end *)

Section Endings.
Context `{Collaborators}.














End Endings.

(* ------------------------------------------------------------------ *)
(** ** What the options can change, and what is logged and written *)

Section FlagInvariant.
Variable V : Type.
Variable f : flag.FlagSet V.
Variable P : V -> Prop.
Hypothesis P_kept :
  forall nm set b v, flag.lookup (flag.formal f) nm = Some set -> P v -> P (set b v).

Lemma parseOne_invariant (v v' : V) (s : string) :
  P v -> flag.parseOne f v s = flag.Seen v' -> P v'.
Proof.
  intros Hv. unfold flag.parseOne.
  destruct (_ || _); [discriminate|].
  destruct (_ && _); [discriminate|].
  destruct (_ || _); [discriminate|].
  destruct (match flag.index_equals _ 1 0 with
            | Some i => _
            | None => _
            end) as [nm value].
  destruct (flag.lookup (flag.formal f) nm) as [set|] eqn:E.
  - destruct value as [value|].
    + destruct (flag.ParseBool value); [|discriminate].
      intros [= <-]. eapply P_kept; eauto.
    + intros [= <-]. eapply P_kept; eauto.
  - destruct (_ || _); discriminate.
Qed.

(** What every assignment of a flag set keeps, [Parse] keeps. *)
Lemma Parse_invariant (args : list string) :
  forall v v' rest, P v -> flag.Parse f v args = inr (v', rest) -> P v'.
Proof.
  induction args as [|s args IH]; intros v v' rest Hv; simpl.
  - now intros [= <- _].
  - destruct (flag.parseOne f v s) as [| |v1|e] eqn:E; try discriminate.
    + now intros [= <- _].
    + now intros [= <- _].
    + apply IH. eapply parseOne_invariant; eauto.
Qed.

End FlagInvariant.

Lemma query_flags_keep_logger (args : list string) (vars : queryVars)
    (rest : list string) :
  flag.Parse query_flags query_vars0 args = inr (vars, rest) ->
  logger (filter vars) = "query: ".
Proof.
  apply (@Parse_invariant queryVars query_flags
           (fun v => logger (filter v) = "query: ")); [|reflexivity].
  intros nm set b v. cbn -[String.eqb].
  repeat (destruct (String.eqb _ nm); [intros [= <-]; exact (fun E => E)|]).
  discriminate.
Qed.

Lemma event_flags_keep_logger (args : list string) (j : jsonFilter)
    (rest : list string) :
  flag.Parse event_flags (new_jsonFilter "event: ") args = inr (j, rest) ->
  logger j = "event: ".
Proof.
  apply (@Parse_invariant jsonFilter event_flags
           (fun j => logger j = "event: ")); [|reflexivity].
  intros nm set b v. cbn -[String.eqb].
  repeat (destruct (String.eqb _ nm); [intros [= <-]; exact (fun E => E)|]).
  discriminate.
Qed.

Section Logging.
Context `{Collaborators}.

Lemma logged_with_app (prefix : string) (a b : list effect) :
  logged_with prefix a -> logged_with prefix b -> logged_with prefix (a ++ b).
Proof.
  intros Ha Hb p l Hin. apply in_app_or in Hin as [Hin|Hin]; eauto.
Qed.

Lemma logged_with_other (prefix : string) (out : list effect) :
  (forall p l, ~ In (Stderr p l) out) -> logged_with prefix out.
Proof. intros Hno p l Hin. now apply Hno in Hin. Qed.

Lemma Encode_logs_nothing (enc : Encoder) (val : value) :
  forall enc' out err p l,
    Encode enc val = (enc', out, err) -> ~ In (Stderr p l) out.
Proof.
  intros enc' out err p l. destruct enc as [esc ind|n|w]; simpl.
  - destruct (json_encoding esc ind val); intros [= <- <- <-]; simpl;
      intuition discriminate.
  - destruct (yaml_Encoder_Encode n val); intros [= <- <- <-]; simpl;
      intuition discriminate.
  - unfold plainEncoder_Encode.
    destruct (match val with
              | VMap _ | VSlice _ => json_Marshal val
              | VString s => Ok s
              | VFloat f => Ok (strconv_FormatFloat f "f" (-1) 64)
              | _ => Ok (fmt_Sprint val)
              end); intros [= <- <- <-]; destruct w; simpl;
      intuition discriminate.
Qed.

Lemma run_loop_logged (j : jsonFilter) (iter : nat -> option item) :
  forall fuel enc i, logged_with (logger j) (effects_of (run_loop fuel j iter enc i)).
Proof.
  induction fuel as [|fuel IH]; intros enc i; simpl.
  - intros p l [].
  - destruct (iter i) as [[val|e|w]|]; simpl.
    + destruct (Encode enc val) as [[enc' o] [e|]] eqn:E; simpl.
      * apply logged_with_app.
        -- apply logged_with_other. intros p l. eapply Encode_logs_nothing; eauto.
        -- intros p l [[= <- _]|[]]. reflexivity.
      * rewrite effects_of_after. apply logged_with_app; [|apply IH].
        apply logged_with_other. intros p l. eapply Encode_logs_nothing; eauto.
    + intros p l [[= <- _]|[]]. reflexivity.
    + intros p l [].
    + intros p l [].
Qed.

Lemma run_logged (fuel : nat) (j : jsonFilter) (queryStr : string) (input : value) :
  logged_with (logger j) (effects_of (run fuel j queryStr input)).
Proof.
  unfold run. destruct (gojq_Parse queryStr) as [query|msg]; simpl.
  - rewrite effects_of_after.
    apply (@logged_with_app _ [Parsed queryStr; Ran queryStr input]);
      [|apply run_loop_logged].
    intros p l [E|[E|[]]]; discriminate E.
  - intros p l [E|[[= <- _]|[]]]; [discriminate E | reflexivity].
Qed.

Lemma decode_loop_logged (fuel : nat) (j : jsonFilter) (queryStr : string)
    (ending : option string) :
  forall docs,
    logged_with (logger j) (effects_of (decode_loop fuel j queryStr docs ending)).
Proof.
  induction docs as [|doc docs IH]; simpl.
  - destruct ending; simpl; [|intros p l []].
    intros p l [[= <- _]|[]]. reflexivity.
  - pose proof (run_logged fuel j queryStr doc) as Hrun.
    destruct (run fuel j queryStr doc) as [o [e|]|o|o]; auto.
    rewrite effects_of_after. now apply logged_with_app.
Qed.

Lemma filter_reader_logged (fuel : nat) (vars : queryVars) (queryStr : string)
    (r : reader) :
  logged_with (logger (filter vars)) (effects_of (filter_reader fuel vars queryStr r)).
Proof.
  unfold filter_reader. destruct (rawInput vars).
  - destruct (fault r); [|apply run_logged].
    intros p l [[= <- _]|[]]. reflexivity.
  - destruct (yaml_Decoder r). apply decode_loop_logged.
Qed.

(** X2.  Whatever the options are, every line a [query] command (or a
    [@name] command taken as a query) logs carries the prefix [query: ] and
    every line an [event] command logs carries [event: ]: no option
    changes the logger. *)
Theorem builtins_log_with_their_prefix (fuel : nat) (p : Prog)
    (h : interp.HandlerContext) (forceVar : option string)
    (args : list string) :
  logged_with "query: " (effects_of (filterJSON fuel h forceVar args))
  /\ logged_with "event: " (effects_of (filterEvent fuel p h args)).
Proof.
  split.
  - unfold filterJSON. destruct args as [|cmd args]; [intros q l []|].
    fold query_vars0.
    destruct (flag.Parse query_flags query_vars0 args) as [e|[vars pos]] eqn:E.
    + destruct e; intros q l Hin; simpl in Hin;
        intuition (try discriminate; congruence).
    + pose proof (query_flags_keep_logger _ E) as Hl. simpl.
      generalize (match forceVar with
                  | Some name => (if (List.length pos =? 0)%nat then ["."] else pos) ++ [name]
                  | None => if (List.length pos =? 0)%nat then ["."] else pos
                  end).
      intros [|q [|s [|x rest]]]; rewrite <- Hl;
        try apply filter_reader_logged.
      intros q' l [[= <- _]|[]]. reflexivity.
  - unfold filterEvent. destruct args as [|cmd args]; [intros q l []|].
    destruct (flag.Parse event_flags (new_jsonFilter "event: ") args)
      as [e|[j pos]] eqn:E.
    + destruct e; intros q l Hin; simpl in Hin;
        intuition (try discriminate; congruence).
    + pose proof (event_flags_keep_logger _ E) as Hl.
      destruct pos as [|q [|x rest]]; rewrite <- Hl; try apply run_logged.
      intros q' l [[= <- _]|[]]. reflexivity.
Qed.

Lemma decode_loop_cons_compiles (fuel : nat) (j : jsonFilter) (queryStr : string)
    (doc : value) (docs : list value) (ending : option string) :
  1 <= compiles (effects_of (decode_loop fuel j queryStr (doc :: docs) ending)).
Proof.
  simpl. pose proof (run_compiles_once fuel j queryStr doc) as Hrun.
  destruct (run fuel j queryStr doc) as [o [e|]|o|o]; simpl in *; try lia.
  rewrite effects_of_after, compiles_app. lia.
Qed.

Lemma filter_reader_silent (fuel : nat) (vars : queryVars) (queryStr : string)
    (r : reader) :
  compiles (effects_of (filter_reader fuel vars queryStr r)) = 0 ->
  stdout_of (effects_of (filter_reader fuel vars queryStr r)) = "".
Proof.
  unfold filter_reader. destruct (rawInput vars).
  - destruct (fault r); [reflexivity|].
    now rewrite run_compiles_once.
  - destruct (yaml_Decoder r) as [[|doc docs] ending].
    + now destruct ending.
    + pose proof (decode_loop_cons_compiles fuel (filter vars) queryStr doc docs ending).
      lia.
Qed.

(** X3.  A built-in command writes to standard output only after it has
    compiled its query string: when it ends before (options that fail to
    parse, too many arguments, an input that cannot be read, or no document
    decoded from the input), standard output is left untouched. *)
Theorem no_output_before_compiling (fuel : nat) (p : Prog)
    (h : interp.HandlerContext) (forceVar : option string)
    (args : list string) :
  (compiles (effects_of (filterJSON fuel h forceVar args)) = 0 ->
   stdout_of (effects_of (filterJSON fuel h forceVar args)) = "")
  /\ (compiles (effects_of (filterEvent fuel p h args)) = 0 ->
      stdout_of (effects_of (filterEvent fuel p h args)) = "").
Proof.
  split.
  - unfold filterJSON. destruct args as [|cmd args]; [reflexivity|].
    destruct (flag.Parse query_flags _ args) as [e|[vars pos]].
    + now destruct e.
    + simpl.
      generalize (match forceVar with
                  | Some name => (if (List.length pos =? 0)%nat then ["."] else pos) ++ [name]
                  | None => if (List.length pos =? 0)%nat then ["."] else pos
                  end).
      intros [|q [|s [|x rest]]]; try apply filter_reader_silent. reflexivity.
  - unfold filterEvent. destruct args as [|cmd args]; [reflexivity|].
    destruct (flag.Parse event_flags _ args) as [e|[j [|q [|x rest]]]];
      try (now destruct e); try reflexivity; now rewrite run_compiles_once.
Qed.

End Logging.

(* ------------------------------------------------------------------ *)
(** ** The output modes *)

Section Modes.
Context `{Collaborators}.

(** A run of the filter on a finite sequence of values. *)
Lemma run_values (fuel : nat) (j : jsonFilter) (queryStr : string)
    (query : Query) (input : value) (vals : list value) :
  gojq_Parse queryStr = Ok query ->
  yields (Query_Run query input) (map Val vals) ->
  Query_Run query input (List.length vals) = None ->
  List.length vals < fuel ->
  run fuel j queryStr input =
    match encode_all (encoder j) vals with
    | (out, Some err) =>
        Return ([Parsed queryStr; Ran queryStr input] ++ out
                  ++ [Stderr (logger j) (log_Printf "encoding error: %v" [err])])
               (Some (interp.NewExitStatus 1))
    | (out, None) => Return ([Parsed queryStr; Ran queryStr input] ++ out) None
    end.
Proof.
  intros Hparse Hy Hend Hfuel. unfold run. rewrite Hparse.
  rewrite (run_loop_prefix _ _ vals None);
    [| intros k v Hk; apply yields_values with (vals := vals) (rest := []);
       [now rewrite app_nil_r | assumption]
     | exact Hend | assumption].
  now destruct (encode_all (encoder j) vals) as [out [err|]].
Qed.

Lemma written_texts_app (a b : list string) :
  written_texts (a ++ b) = (written_texts a ++ written_texts b)%string.
Proof.
  induction a as [|t a IH]; simpl; [reflexivity|].
  unfold written_texts in *. simpl. now rewrite IH, append_assoc.
Qed.

Lemma json_lines_app (a b : list string) :
  json_lines (a ++ b) = (json_lines a ++ json_lines b)%string.
Proof. unfold json_lines. now rewrite map_app, written_texts_app. Qed.

Lemma encode_all_json (escapeHTML : bool) (indent : option (string * string))
    (vals : list value) (texts : list string) :
  Forall2 (fun val text => json_encoding escapeHTML indent val = Ok text) vals texts ->
  exists out,
    encode_all (json_Encoder escapeHTML indent) vals = (out, None)
    /\ stdout_of out = json_lines texts.
Proof.
  induction 1 as [|val text vals texts Hval _ (out & IH & Hout)].
  - exists []. now split.
  - rewrite encode_all_cons. simpl Encode. rewrite Hval, IH.
    eexists. split; [reflexivity|]. simpl. now rewrite Hout.
Qed.

(** The texts the encoder writes from its document number [n] on. *)
Lemma encode_all_yaml (vals : list value) (texts : list string) :
  forall n,
    List.length texts = List.length vals ->
    (forall k val,
        nth_error vals k = Some val ->
        yaml_Encoder_Encode (n + k) val = Ok (nth k texts "")) ->
    exists out,
      encode_all (yaml_Encoder n) vals = (out, None)
      /\ stdout_of out = written_texts texts.
Proof.
  revert texts. induction vals as [|val vals IH]; intros [|text texts] n Hlen Hk;
    try discriminate Hlen.
  - exists []. now split.
  - rewrite encode_all_cons. simpl Encode.
    pose proof (Hk 0 val eq_refl) as H0. rewrite Nat.add_0_r in H0. simpl in H0.
    rewrite H0.
    destruct (IH texts (S n)) as (out & E & Hout).
    + now injection Hlen.
    + intros k v Hv. specialize (Hk (S k) v Hv). simpl in Hk.
      now rewrite Nat.add_succ_r in Hk.
    + rewrite E. eexists. split; [reflexivity|]. simpl. now rewrite Hout.
Qed.

(** X4.  In JSON mode every value is written as its JSON encoding (HTML
    characters not escaped, indented by two spaces when [pretty] is set)
    followed by a line feed, so the values of all the documents of a
    [query] command are written one per line: a later document starts on a
    line of its own. *)
Theorem json_mode_writes_lines (fuel : nat) (p y : bool) (prefix : string)
    (queryStr : string) (query : Query)
    (docs : list value) (textss : list (list string)) :
  gojq_Parse queryStr = Ok query ->
  Forall2 (fun doc texts =>
             exists vals,
               yields (Query_Run query doc) (map Val vals)
               /\ Query_Run query doc (List.length vals) = None
               /\ Forall2 (fun val text =>
                             json_encoding false
                               (if p then Some ("", "  ") else None) val = Ok text)
                          vals texts
               /\ List.length vals < fuel) docs textss ->
  exists out,
    decode_loop fuel {| pretty := p; json := true; yaml := y; logger := prefix |}
        queryStr docs None = Return out None
    /\ stdout_of out = json_lines (concat textss).
Proof.
  intros Hparse. induction 1 as [|doc texts docs textss Hdoc _ IH].
  - exists []. now split.
  - destruct Hdoc as (vals & Hy & Hend & Htexts & Hfuel).
    destruct (@encode_all_json _ _ _ _ Htexts) as (o & Ho & Hout).
    destruct IH as (out' & Hloop & Hout').
    simpl decode_loop.
    rewrite (@run_values fuel _ queryStr query doc vals Hparse Hy Hend Hfuel).
    change (encoder {| pretty := p; json := true; yaml := y; logger := prefix |})
      with (json_Encoder false (if p then Some ("", "  ") else None)).
    rewrite Ho, Hloop.
    eexists. split; [reflexivity|].
    simpl. rewrite !stdout_of_app, Hout, Hout'. apply eq_sym, json_lines_app.
Qed.

(** X5.  In YAML mode the encoder is built anew in every run of the
    filter, so the values of one input document are written as the
    documents 0, 1, 2, ... of a fresh YAML stream, whatever was written
    for the documents before. *)
Theorem yaml_mode_restarts_per_run (fuel : nat) (p : bool) (prefix : string)
    (queryStr : string) (query : Query) (input : value)
    (vals : list value) (texts : list string) :
  gojq_Parse queryStr = Ok query ->
  yields (Query_Run query input) (map Val vals) ->
  Query_Run query input (List.length vals) = None ->
  List.length texts = List.length vals ->
  (forall k val,
      nth_error vals k = Some val ->
      yaml_Encoder_Encode k val = Ok (nth k texts "")) ->
  List.length vals < fuel ->
  exists out,
    run fuel {| pretty := p; json := false; yaml := true; logger := prefix |}
        queryStr input = Return out None
    /\ stdout_of out = written_texts texts.
Proof.
  intros Hparse Hy Hend Hlen Htexts Hfuel.
  rewrite (@run_values fuel _ queryStr query input vals Hparse Hy Hend Hfuel).
  destruct (@encode_all_yaml vals texts 0 Hlen Htexts) as (out & E & Hout).
  change (encoder {| pretty := p; json := false; yaml := true; logger := prefix |})
    with (yaml_Encoder 0).
  rewrite E. eexists. split; [reflexivity|]. exact Hout.
Qed.

(** X6.  The option [pretty] matters in JSON mode only: without [json], in
    YAML mode and in plain mode, a command yields the same with [pretty] set
    or not. *)
Theorem pretty_matters_in_json_only (fuel : nat) (raw p p' y : bool)
    (prefix : string) (queryStr : string) (input : value) (r : reader) :
  let j := fun pretty =>
    {| pretty := pretty; json := false; yaml := y; logger := prefix |} in
  run fuel (j p) queryStr input = run fuel (j p') queryStr input
  /\ filter_reader fuel {| rawInput := raw; filter := j p |} queryStr r
       = filter_reader fuel {| rawInput := raw; filter := j p' |} queryStr r.
Proof.
  intros j.
  assert (He : encoder (j p) = encoder (j p')) by reflexivity.
  assert (Hl : logger (j p) = logger (j p')) by reflexivity.
  split; [now apply run_encoder|].
  unfold filter_reader. simpl. destruct raw.
  - destruct (fault r); [reflexivity | now apply run_encoder].
  - destruct (yaml_Decoder r) as [docs ending]. now apply decode_loop_encoder.
Qed.

(** The plain encoder on values that have a text and then one that has
    none: the separator of the failing value is already written. *)
Lemma run_loop_plain_failure (j : jsonFilter) (iter : nat -> option item)
    (bad : value) (err : string) (vals : list value) (texts : list string) :
  plain_text bad = Error err ->
  Forall2 (fun val text => plain_text val = Ok text) vals texts ->
  forall fuel written i,
    (forall k val, nth_error vals k = Some val -> iter (i + k) = Some (Val val)) ->
    iter (i + List.length vals) = Some (Val bad) ->
    List.length vals < fuel ->
    exists out,
      run_loop fuel j iter (plainEncoder written) i =
        Return (out ++ [Stderr (logger j) (log_Printf "encoding error: %v" [err])])
               (Some (interp.NewExitStatus 1))
      /\ stdout_of out =
           match texts with
           | [] => if written then LF else ""
           | _ => ((if written then LF else "") ++ String.concat LF texts ++ LF)%string
           end.
Proof.
  intros Hbad. induction 1 as [|val text vals texts Hval _ IH];
    intros fuel written i Hvals Hnext Hfuel;
    (destruct fuel as [|fuel]; [simpl in Hfuel; lia|]).
  - simpl in *. rewrite Nat.add_0_r in Hnext. rewrite Hnext.
    unfold plainEncoder_Encode.
    replace (match bad with
             | VMap _ | VSlice _ => json_Marshal bad
             | VString val => Ok val
             | VFloat val => Ok (strconv_FormatFloat val "f" (-1) 64)
             | _ => Ok (fmt_Sprint bad)
             end) with (@Error string err)
      by (rewrite <- Hbad; now destruct bad).
    eexists. split; [reflexivity|]. now destruct written.
  - assert (Hi : iter i = Some (Val val))
      by (rewrite <- (Hvals 0 val eq_refl); f_equal; lia).
    cbn [run_loop]. rewrite Hi, (plainEncoder_Encode_text written _ Hval).
    destruct (IH fuel true (S i)) as (out & E & Hout).
    + intros k v Hk. rewrite <- (Hvals (S k) v Hk). f_equal. lia.
    + rewrite <- Hnext. f_equal. simpl. lia.
    + simpl in Hfuel. lia.
    + rewrite E. simpl after. eexists. split.
      * rewrite app_assoc. reflexivity.
      * rewrite !stdout_of_app, Hout. simpl.
        destruct texts as [|text' texts]; destruct written; simpl;
          rewrite ?append_empty_r, ?append_assoc; simpl; reflexivity.
Qed.

(** X7.  In plain mode the line feed that separates a value from the one
    before is written before the value is encoded: when a mapping or a
    sequence cannot be encoded after some values were written, the run ends
    with status 1 and standard output ends with that line feed. *)
Theorem plain_failure_leaves_separator (fuel : nat) (p : bool) (prefix : string)
    (queryStr : string) (query : Query) (input : value)
    (vals : list value) (texts : list string) (bad : value) (err : string)
    (more : list item) :
  gojq_Parse queryStr = Ok query ->
  yields (Query_Run query input) (map Val vals ++ Val bad :: more) ->
  Forall2 (fun val text => plain_text val = Ok text) vals texts ->
  vals <> [] ->
  plain_text bad = Error err ->
  List.length vals < fuel ->
  exists out,
    run fuel {| pretty := p; json := false; yaml := false; logger := prefix |}
        queryStr input
      = Return (out ++ [Stderr prefix (log_Printf "encoding error: %v" [err])])
               (Some (interp.NewExitStatus 1))
    /\ stdout_of out = (String.concat LF texts ++ LF)%string.
Proof.
  intros Hparse Hy Htexts Hne Hbad Hfuel. unfold run. rewrite Hparse.
  destruct (@run_loop_plain_failure
              {| pretty := p; json := false; yaml := false; logger := prefix |}
              (Query_Run query input) bad err vals texts Hbad Htexts
              fuel false 0) as (out & E & Hout).
  - now apply yields_values with (rest := Val bad :: more).
  - now apply yields_next with (rest := more).
  - assumption.
  - unfold encoder, newPlainEncoder. simpl. rewrite E. simpl.
    exists (Parsed queryStr :: Ran queryStr input :: out).
    split; [reflexivity|]. simpl. rewrite Hout.
    destruct texts as [|t texts]; [|reflexivity].
    inversion Htexts. congruence.
Qed.

(** X8.  A document that cannot be decoded ends a [query] command with
    status 1, after the output of the documents before it: what those
    wrote stays written. *)
Theorem decode_error_after_documents (fuel : nat) (vars : queryVars)
    (queryStr : string) (r : reader) (docs : list value)
    (outs : list (list effect)) (err : string) :
  rawInput vars = false ->
  yaml_Decoder r = (docs, Some err) ->
  Forall2 (fun doc out => run fuel (filter vars) queryStr doc = Return out None)
          docs outs ->
  filter_reader fuel vars queryStr r =
    Return (concat outs
              ++ [Stderr (logger (filter vars))
                    (log_Printf "error decoding input: %v" [err])])
           (Some (interp.NewExitStatus 1)).
Proof.
  intros Hraw Hdec Hdocs. unfold filter_reader. rewrite Hraw, Hdec.
  rewrite <- (app_nil_r docs).
  now rewrite (@decode_loop_app _ fuel (filter vars) queryStr docs outs Hdocs).
Qed.

End Modes.

(* ------------------------------------------------------------------ *)
(** ** Further properties of the dispatcher *)

Section Dispatch.
Context `{Collaborators}.

(** X9.  A command that is neither [query] nor [event] and does not start
    with [@] is handed to the default exec handler with its arguments
    unchanged. *)
Theorem other_commands_are_delegated (fuel : nat) (p : Prog)
    (h : interp.HandlerContext) (cmd : string) (rest : list string) :
  cmd <> "query" -> cmd <> "event" -> strings.HasPrefix cmd "@" = false ->
  exec fuel p h (cmd :: rest) = defaultExec p h (cmd :: rest).
Proof.
  intros Hq He Hat. unfold exec.
  apply String.eqb_neq in Hq, He. rewrite Hq, He, Hat.
  now rewrite orb_true_r.
Qed.

Lemma parseOne_not_dash (V : Type) (f : flag.FlagSet V) (v : V) (s : string) :
  byte_is s 0 "-" = false -> flag.parseOne f v s = flag.NotFlag.
Proof. intros Hs. unfold flag.parseOne. now rewrite Hs, orb_true_r. Qed.

(** X10.  [@name -R query]: the query runs once, on the text of the
    variable as one string (the elements of an indexed variable joined by
    line feeds); nothing is decoded. *)
Theorem at_name_raw_input (fuel : nat) (p : Prog) (h : interp.HandlerContext)
    (name queryStr : string) :
  name <> "" -> name <> "-" ->
  expand.Kind (interp.Env h name) = expand.String
    \/ expand.Kind (interp.Env h name) = expand.Indexed ->
  byte_is queryStr 0 "-" = false ->
  exec fuel p h [("@" ++ name)%string; "-R"; queryStr] =
    run fuel (new_jsonFilter "query: ") queryStr
        (VString (variable_text (interp.Env h name))).
Proof.
  intros Hname Hdash Hkind Hq. rewrite exec_at by assumption.
  replace (negb _ && negb _) with false by (destruct Hkind as [-> | ->]; reflexivity).
  unfold filterJSON.
  assert (E : flag.Parse query_flags
                {| rawInput := false; filter := new_jsonFilter "query: " |}
                ["-R"; queryStr]
              = inr ({| rawInput := true; filter := new_jsonFilter "query: " |},
                     [queryStr])).
  { change (flag.Parse query_flags
              {| rawInput := false; filter := new_jsonFilter "query: " |}
              ["-R"; queryStr])
      with (match flag.parseOne query_flags
                    {| rawInput := true; filter := new_jsonFilter "query: " |}
                    queryStr with
            | flag.NotFlag =>
                inr ({| rawInput := true; filter := new_jsonFilter "query: " |},
                     [queryStr])
            | flag.Terminator =>
                inr ({| rawInput := true; filter := new_jsonFilter "query: " |}, [])
            | flag.Seen v' => flag.Parse query_flags v' []
            | flag.Failed e => inl e
            end).
    now rewrite parseOne_not_dash. }
  rewrite E. simpl. rewrite (source_reader_variable h Hdash). reflexivity.
Qed.

(** X12.  [event] with options only queries the event document with [.]:
    it is [event] with the same options and the query [.]. *)
Theorem event_default_query (fuel : nat) (p : Prog) (h : interp.HandlerContext)
    (args : list string) (j : jsonFilter) :
  flag.Parse event_flags (new_jsonFilter "event: ") args = inr (j, []) ->
  exec fuel p h ("event" :: args) = run fuel j "." (event p)
  /\ exec fuel p h ("event" :: args) = exec fuel p h ("event" :: args ++ ["."]).
Proof.
  intros Hparse.
  change (exec fuel p h ("event" :: args))
    with (filterEvent fuel p h ("event" :: args)).
  change (exec fuel p h ("event" :: args ++ ["."]))
    with (filterEvent fuel p h ("event" :: args ++ ["."])).
  unfold filterEvent.
  now rewrite (Parse_app_dot _ _ [] _ Hparse), Hparse.
Qed.

End Dispatch.

(* ------------------------------------------------------------------ *)
(** ** Startup *)

Lemma HasPrefix_app (prefix s : string) :
  strings.HasPrefix (prefix ++ s) prefix = true.
Proof.
  unfold strings.HasPrefix, slice_to.
  induction prefix as [|c prefix IH]; simpl.
  - fold (slice_to s 0). now rewrite slice_to_0.
  - apply andb_true_iff in IH as [Hlen Heq].
    apply andb_true_iff. split; [exact Hlen|].
    simpl. now rewrite Ascii.eqb_refl.
Qed.

(** The rounds of [Parse] are enough: a round that goes on has consumed an
    argument. *)
Lemma parseOne_consumes (V : Type) (f : flagv.FlagSet V) (v v' : V)
    (args args' : list string) (e : option flagv.error) :
  flagv.parseOne f v args = (true, e, v', args') ->
  List.length args' < List.length args.
Proof.
  unfold flagv.parseOne. destruct args as [|s rest]; [discriminate|].
  destruct (_ || _); [discriminate|].
  destruct (_ && _); [discriminate|].
  destruct (_ || _); [discriminate|].
  destruct (match flag.index_equals _ 1 0 with
            | Some i => _
            | None => _
            end) as [nm value].
  destruct (flagv.lookup (flagv.formal f) nm) as [[set|set]|].
  - destruct value as [value|]; [destruct (flag.ParseBool value)|];
      intros E; inversion E; subst; simpl; lia.
  - destruct value as [value|]; [|destruct rest as [|value rest']];
      intros E; inversion E; subst; simpl; lia.
  - destruct (_ || _); discriminate.
Qed.

Lemma Parse_loop_rounds (V : Type) (f : flagv.FlagSet V) :
  forall rounds v args,
    List.length args <= rounds ->
    flagv.Parse_loop rounds f v args = flagv.Parse f v args.
Proof.
  assert (Hgen : forall n m v args,
             List.length args <= n -> List.length args <= m ->
             flagv.Parse_loop n f v args = flagv.Parse_loop m f v args).
  { induction n as [|n IH]; intros m v args Hn Hm.
    - destruct args; [|simpl in Hn; lia]. now destruct m.
    - destruct m as [|m].
      + destruct args; [|simpl in Hm; lia]. reflexivity.
      + simpl. destruct (flagv.parseOne f v args) as [[[[|] e] v'] args'] eqn:E;
          [|reflexivity].
        apply parseOne_consumes in E. apply IH; lia. }
  intros rounds v args Hr. unfold flagv.Parse. apply Hgen; lia.
Qed.

Lemma first_terminator_spec (srcArgs : list string) :
  forall i,
    match first_terminator srcArgs i with
    | Some k =>
        i <= k
        /\ ~ In "--" (firstn (k - i) srcArgs)
        /\ srcArgs = firstn (k - i) srcArgs ++ "--" :: skipn (k - i + 1) srcArgs
    | None => ~ In "--" srcArgs
    end.
Proof.
  induction srcArgs as [|arg rest IH]; intros i; simpl.
  - tauto.
  - destruct (String.eqb_spec arg "--") as [->|Hne].
    + rewrite Nat.sub_diag. simpl. split; [lia|]. split; [tauto | reflexivity].
    + specialize (IH (S i)).
      destruct (first_terminator rest (S i)) as [k|].
      * destruct IH as (Hle & Hno & Heq).
        replace (k - i) with (S (k - S i)) by lia. simpl.
        split; [lia|]. split.
        -- intros [E|Hin]; [congruence | tauto].
        -- now rewrite <- Heq.
      * intros [E|Hin]; [congruence | tauto].
Qed.

(** X13.  In raw mode the arguments are split at the first [--]: the
    script lines are the arguments before it and hold no [--], the
    parameters are all the arguments after it (a second [--] among them
    stays); without a [--] every argument is a script line. *)
Theorem split_params_at_first_terminator (Args : list string) :
  ~ In "--" (fst (split_params Args))
  /\ (In "--" Args ->
      Args = fst (split_params Args) ++ "--" :: snd (split_params Args))
  /\ (~ In "--" Args ->
      fst (split_params Args) = Args /\ snd (split_params Args) = []).
Proof.
  unfold split_params. pose proof (first_terminator_spec Args 0) as Hspec.
  destruct (first_terminator Args 0) as [k|]; simpl.
  - rewrite Nat.sub_0_r in Hspec. destruct Hspec as (_ & Hno & Heq).
    split; [exact Hno|]. split; [intros _; exact Heq|].
    intros Hnot. exfalso. apply Hnot. rewrite Heq. apply in_or_app. right. now left.
  - split; [exact Hspec|]. split; [intros Hin; contradiction | now split].
Qed.

Section StartupProperties.
Context `{Collaborators} `{System}.

Lemma readEvent_actions (path : string) :
  fst (readEvent path) = if String.eqb path "-" then [StdinRead] else [Opened path].
Proof.
  unfold readEvent, openFile, consumed.
  destruct (String.eqb path "-").
  - simpl. destruct (fault os_Stdin); [reflexivity|].
    now destruct (yaml_Unmarshal (data os_Stdin)).
  - destruct (os_Open path) as [f|err]; [|reflexivity].
    simpl. destruct (fault f); [reflexivity|].
    now destruct (yaml_Unmarshal (data f)).
Qed.

Lemma readScript_text (text : string) :
  readScript (shebang ++ text)
    = ([ScriptParsed (shebang ++ text)%string],
       parseScript (strings_reader.NewReader (shebang ++ text)) (shebang ++ text)).
Proof. unfold readScript. now rewrite HasPrefix_app. Qed.

Lemma readScript_actions (path : string) :
  strings.HasPrefix path shebang = false ->
  fst (readScript path) =
    if String.eqb path "-" then [StdinRead; ScriptParsed path]
    else match os_Open path with
         | Ok _ => [Opened path; ScriptParsed path]
         | Error _ => [Opened path]
         end.
Proof.
  intros Hp. unfold readScript, openFile, consumed. rewrite Hp.
  destruct (String.eqb path "-"); [reflexivity|].
  now destruct (os_Open path).
Qed.

(** The actions of [start]: those of [readEvent], then those of
    [readScript] if the event was read, then the run and the log. *)
Lemma start_actions (fuel : nat) (vars : mainVars) (prog : string)
    (params : list string) :
  exists rest,
    (fst (start fuel vars prog params) = rest
     \/ fst (start fuel vars prog params) = fst (readEvent (eventFile vars)) ++ rest
     \/ fst (start fuel vars prog params)
          = fst (readEvent (eventFile vars)) ++ fst (readScript prog) ++ rest)
    /\ (forall a, In a rest -> a = ScriptRun \/ exists f l, a = Logged f l).
Proof.
  unfold start. destruct (interp_New params) as [err|].
  - eexists. split; [left; reflexivity|].
    intros a [<-|[]]. right. eauto.
  - destruct (readEvent (eventFile vars)) as [acts [event|err]].
    + destruct (readScript prog) as [acts' [script|err]].
      * destruct (Runner_Run _ params script) as [err|]; simpl;
          eexists; (split; [right; right; reflexivity|]).
        -- intros a [<-|[<-|[]]]; [now left | right; eauto].
        -- intros a [<-|[]]. now left.
      * simpl. eexists. split; [right; right; reflexivity|].
        intros a [<-|[]]. right. eauto.
    + simpl. eexists. split; [right; left; reflexivity|].
      intros a [<-|[]]. right. eauto.
Qed.

(** X14.  In raw mode no script file is opened: the only file [Main] may
    open is the event file, and the script it parses is the text that
    starts with the line [#!sensu-sh]. *)
Theorem raw_mode_opens_only_the_event (fuel : nat) (args : list string)
    (vars : mainVars) (Args : list string) :
  flagv.Parse main_flags main_vars0 args = inr (vars, Args) ->
  rawScript vars = true ->
  (forall path, In (Opened path) (fst (Main fuel args)) ->
                path = eventFile vars /\ path <> "-")
  /\ (forall name, In (ScriptParsed name) (fst (Main fuel args)) ->
                   name = (shebang ++ strings.Join (fst (split_params Args)) LF)%string).
Proof.
  intros Hparse Hraw. unfold Main. rewrite Hparse, Hraw. simpl.
  destruct (List.length Args =? 0)%nat.
  { split; intros x [E|[]]; discriminate E. }
  destruct (split_params Args) as [srcArgs parArgs]. simpl.
  destruct (start_actions fuel vars (shebang ++ strings.Join srcArgs LF) parArgs)
    as (rest & Hcases & Hrest).
  assert (Hno : forall a, In a rest -> forall x, a <> Opened x /\ a <> ScriptParsed x).
  { intros a Ha x. destruct (Hrest a Ha) as [->|(f & l & ->)]; split; discriminate. }
  rewrite readScript_text, readEvent_actions in Hcases. simpl in Hcases.
  assert (Hev : forall a,
             In a (if String.eqb (eventFile vars) "-" then [StdinRead]
                   else [Opened (eventFile vars)]) ->
             (forall path, a = Opened path ->
                           path = eventFile vars /\ path <> "-")
             /\ (forall name, a <> ScriptParsed name)).
  { intros a. destruct (String.eqb_spec (eventFile vars) "-") as [E|E];
      intros [<-|[]]; split; try discriminate.
    intros path [= <-]. now split. }
  split; intros x Hin.
  - destruct Hcases as [E|[E|E]]; rewrite E in Hin.
    + now apply Hno with (x := x) in Hin.
    + apply in_app_or in Hin as [Hin|Hin].
      * now apply Hev in Hin as [Hin _]; apply Hin.
      * now apply Hno with (x := x) in Hin.
    + apply in_app_or in Hin as [Hin|[E'|Hin]].
      * now apply Hev in Hin as [Hin _]; apply Hin.
      * discriminate E'.
      * now apply Hno with (x := x) in Hin.
  - destruct Hcases as [E|[E|E]]; rewrite E in Hin.
    + now apply Hno with (x := x) in Hin.
    + apply in_app_or in Hin as [Hin|Hin].
      * now apply Hev in Hin as [_ Hin]; elim (Hin x).
      * now apply Hno with (x := x) in Hin.
    + apply in_app_or in Hin as [Hin|[E'|Hin]].
      * now apply Hev in Hin as [_ Hin]; elim (Hin x).
      * now injection E'.
      * now apply Hno with (x := x) in Hin.
Qed.

End StartupProperties.

Section StartupInvariants.
Context `{Collaborators} `{System}.

Lemma shebang_not_dash (text : string) :
  ((shebang ++ text)%string =? "-")%string = false.
Proof. reflexivity. Qed.

Lemma stdin_reads_app (a b : list action) :
  stdin_reads (a ++ b) = stdin_reads a + stdin_reads b.
Proof.
  induction a as [|x a IH]; simpl; [reflexivity|].
  destruct x; simpl; rewrite IH; reflexivity.
Qed.

Lemma stdin_reads_rest (rest : list action) :
  (forall a, In a rest -> a = ScriptRun \/ exists f l, a = Logged f l) ->
  stdin_reads rest = 0.
Proof.
  induction rest as [|x rest IH]; intros Hrest; [reflexivity|].
  destruct (Hrest x (or_introl eq_refl)) as [->|(f & l & ->)]; simpl;
    apply IH; intros a Ha; apply Hrest; now right.
Qed.

Lemma readScript_stdin_reads (path : string) :
  stdin_reads (fst (readScript path)) = if String.eqb path "-" then 1 else 0.
Proof.
  destruct (strings.HasPrefix path shebang) eqn:Hp.
  - unfold readScript. rewrite Hp. simpl.
    destruct (String.eqb_spec path "-") as [->|]; [discriminate Hp | reflexivity].
  - rewrite (readScript_actions _ Hp).
    destruct (String.eqb path "-"); [reflexivity|].
    now destruct (os_Open path).
Qed.

Lemma readEvent_stdin_reads (path : string) :
  stdin_reads (fst (readEvent path)) = if String.eqb path "-" then 1 else 0.
Proof. rewrite readEvent_actions. now destruct (String.eqb path "-"). Qed.

Lemma start_stdin_reads (fuel : nat) (vars : mainVars) (prog : string)
    (params : list string) :
  stdin_reads (fst (start fuel vars prog params))
    <= (if String.eqb (eventFile vars) "-" then 1 else 0)
       + (if String.eqb prog "-" then 1 else 0).
Proof.
  destruct (start_actions fuel vars prog params) as (rest & Hcases & Hrest).
  apply stdin_reads_rest in Hrest.
  destruct Hcases as [E|[E|E]]; rewrite E, ?stdin_reads_app,
    ?readEvent_stdin_reads, ?readScript_stdin_reads, Hrest; lia.
Qed.

(** X15.  Whatever its arguments, [Main] reads standard input at most
    once: the event and the script are never both taken from it. *)
Theorem stdin_is_read_at_most_once (fuel : nat) (args : list string) :
  stdin_reads (fst (Main fuel args)) <= 1.
Proof.
  unfold Main.
  destruct (flagv.Parse main_flags main_vars0 args) as [e|[vars Args]].
  { destruct e; simpl; lia. }
  destruct (rawScript vars); cbn [andb negb].
  - destruct (List.length Args =? 0)%nat; [simpl; lia|].
    destruct (split_params Args) as [srcArgs parArgs].
    pose proof (start_stdin_reads fuel vars
                  (shebang ++ strings.Join srcArgs LF) parArgs) as Hs.
    rewrite shebang_not_dash in Hs.
    destruct (String.eqb (eventFile vars) "-"); lia.
  - destruct (List.length Args =? 0)%nat; [simpl; lia|].
    pose proof (start_stdin_reads fuel vars (hd "" Args) (tl Args)) as Hs.
    destruct (String.eqb (hd "" Args) "-"), (String.eqb (eventFile vars) "-");
      cbn [andb]; [simpl; lia | lia | lia | lia].
Qed.

Lemma start_without_event (fuel : nat) (vars : mainVars) (prog : string)
    (params : list string) (acts : list action) (err : string) :
  readEvent (eventFile vars) = (acts, Error err) ->
  snd (start fuel vars prog params) = 1
  /\ forallb (fun a => negb (is_script_action a)) (fst (start fuel vars prog params))
       = true.
Proof.
  intros Hev. unfold start. destruct (interp_New params); [now split|].
  pose proof (readEvent_actions (eventFile vars)) as Ha.
  rewrite Hev in *. simpl in *. subst acts. split; [reflexivity|].
  rewrite forallb_app. now destruct (String.eqb (eventFile vars) "-").
Qed.

(** X16.  An event that cannot be opened, read or decoded is fatal: [Main]
    ends with status 1 and the script is neither parsed nor run. *)
Theorem unreadable_event_is_fatal (fuel : nat) (args : list string)
    (vars : mainVars) (Args : list string) (acts : list action) (err : string) :
  flagv.Parse main_flags main_vars0 args = inr (vars, Args) ->
  readEvent (eventFile vars) = (acts, Error err) ->
  snd (Main fuel args) = 1
  /\ forallb (fun a => negb (is_script_action a)) (fst (Main fuel args)) = true.
Proof.
  intros Hparse Hev. unfold Main. rewrite Hparse.
  destruct (rawScript vars); cbn [andb negb].
  - destruct (List.length Args =? 0)%nat; [now split|].
    destruct (split_params Args) as [srcArgs parArgs].
    now apply start_without_event with (acts := acts) (err := err).
  - destruct (List.length Args =? 0)%nat; [now split|].
    destruct (_ && _); [now split|].
    now apply start_without_event with (acts := acts) (err := err).
Qed.

Lemma start_status (fuel : nat) (vars : mainVars) (prog : string)
    (params : list string) :
  (snd (start fuel vars prog params) = 1
   /\ forall acts, fst (start fuel vars prog params) <> acts ++ [ScriptRun])
  \/ (snd (start fuel vars prog params) = 0
      /\ exists event script,
           snd (readEvent (eventFile vars)) = Ok event
           /\ snd (readScript prog) = Ok script
           /\ Runner_Run
                (exec fuel {| event := event;
                              defaultExec := interp_DefaultExecHandler |})
                params script = None
           /\ fst (start fuel vars prog params)
                = fst (readEvent (eventFile vars)) ++ fst (readScript prog)
                    ++ [ScriptRun]).
Proof.
  assert (Hlast : forall (a b : list action) x y, x <> y -> a ++ [x] <> b ++ [y]).
  { intros a b x y Hxy E. apply app_inj_tail in E as [_ E]. contradiction. }
  unfold start. destruct (interp_New params) as [err|].
  { left. split; [reflexivity|]. intros acts. apply (Hlast []). discriminate. }
  destruct (readEvent (eventFile vars)) as [acts [event|err]].
  - destruct (readScript prog) as [acts' [script|err]].
    + destruct (Runner_Run _ params script) as [err|] eqn:E; simpl.
      * left. split; [reflexivity|]. intros a.
        change (acts ++ acts' ++ [ScriptRun; Logged "script error: %v" [err]])
          with (acts ++ acts' ++ [ScriptRun] ++ [Logged "script error: %v" [err]]).
        rewrite !app_assoc. apply Hlast. discriminate.
      * right. split; [reflexivity|]. exists event, script. now repeat split.
    + left. simpl. split; [reflexivity|]. intros a.
      rewrite app_assoc. apply Hlast. discriminate.
  - left. simpl. split; [reflexivity|]. intros a. apply Hlast. discriminate.
Qed.

(** X17.  [Main] ends with status 0 only when the event was read and
    decoded, the script was read and parsed, and the run of the script with
    the parameters returned no error; the run is then the last thing it
    did.  It ends with status 2 only when its options ask for help. *)
Theorem exit_status_of_main (fuel : nat) (args : list string) :
  (snd (Main fuel args) = 0 ->
   exists vars Args event script,
     flagv.Parse main_flags main_vars0 args = inr (vars, Args)
     /\ let prog :=
          if rawScript vars
          then (shebang ++ strings.Join (fst (split_params Args)) LF)%string
          else hd "" Args in
        let params := if rawScript vars then snd (split_params Args) else tl Args in
        snd (readEvent (eventFile vars)) = Ok event
        /\ snd (readScript prog) = Ok script
        /\ Runner_Run
             (exec fuel {| event := event; defaultExec := interp_DefaultExecHandler |})
             params script = None
        /\ fst (Main fuel args)
             = fst (readEvent (eventFile vars)) ++ fst (readScript prog)
                 ++ [ScriptRun])
  /\ (snd (Main fuel args) = 2 ->
      flagv.Parse main_flags main_vars0 args = inl flagv.ErrHelp).
Proof.
  unfold Main.
  destruct (flagv.Parse main_flags main_vars0 args) as [e|[vars Args]].
  { destruct e; simpl; split; intros E; try discriminate E; reflexivity. }
  assert (Hstart : forall prog params,
             (snd (start fuel vars prog params) = 0 ->
              exists event script,
                snd (readEvent (eventFile vars)) = Ok event
                /\ snd (readScript prog) = Ok script
                /\ Runner_Run
                     (exec fuel {| event := event;
                                   defaultExec := interp_DefaultExecHandler |})
                     params script = None
                /\ fst (start fuel vars prog params)
                     = fst (readEvent (eventFile vars)) ++ fst (readScript prog)
                         ++ [ScriptRun])
             /\ snd (start fuel vars prog params) <> 2).
  { intros prog params.
    destruct (start_status fuel vars prog params)
      as [[E _]|[E (event & script & He & Hs & Hr & Ha)]];
      rewrite E; split; try discriminate; intros E'; try discriminate E'.
    exists event, script. now repeat split. }
  destruct (rawScript vars) eqn:Hraw; cbn [andb negb].
  - destruct (List.length Args =? 0)%nat;
      [simpl; split; intros E; discriminate E|].
    destruct (split_params Args) as [srcArgs parArgs] eqn:Hsplit.
    destruct (Hstart (shebang ++ strings.Join srcArgs LF)%string parArgs) as [H0' H2'].
    split; [|intros E; contradiction].
    intros E. destruct (H0' E) as (event & script & Hrest).
    exists vars, Args, event, script. rewrite Hraw, Hsplit. now split.
  - destruct (List.length Args =? 0)%nat;
      [simpl; split; intros E; discriminate E|].
    destruct (_ && _); [simpl; split; intros E; discriminate E|].
    destruct (Hstart (hd "" Args) (tl Args)) as [H0' H2'].
    split; [|intros E; contradiction].
    intros E. destruct (H0' E) as (event & script & Hrest).
    exists vars, Args, event, script. rewrite Hraw. now split.
Qed.

End StartupInvariants.

(* ------------------------------------------------------------------ *)
(** ** Options come first; the script runs last *)

Section Order.
Context `{Collaborators}.

(** X19.  Options are recognised before the query string only: when the
    first argument of [query] does not start with [-], it is the query
    string and nothing after it is an option, so [query q -j] takes [-j]
    as the input source and [query q src -j] is the usage error. *)
Theorem query_string_ends_options (fuel : nat) (p : Prog)
    (h : interp.HandlerContext) (queryStr : string) (rest : list string) :
  byte_is queryStr 0 "-" = false ->
  exec fuel p h ("query" :: queryStr :: rest) =
    match rest with
    | [] => filter_reader fuel query_vars0 queryStr (interp.Stdin h)
    | [source] => filter_reader fuel query_vars0 queryStr (source_reader h source)
    | _ :: _ :: _ =>
        Return [Stderr "query: "
                  (log_Printf "too many argument to query: expected 0..2" [])]
               (Some (interp.NewExitStatus 1))
    end.
Proof.
  intros Hq.
  change (exec fuel p h ("query" :: queryStr :: rest))
    with (filterJSON fuel h None ("query" :: queryStr :: rest)).
  unfold filterJSON. fold query_vars0. cbn [flag.Parse].
  rewrite parseOne_not_dash by assumption.
  now destruct rest as [|source [|extra rest]].
Qed.

(** X21.  [event] runs the query it is given: a first argument that does
    not start with [-] is the query string, run once on the event document
    with the default options, and any argument after it is the usage
    error. *)
Theorem event_query_string (fuel : nat) (p : Prog)
    (h : interp.HandlerContext) (queryStr : string) (rest : list string) :
  byte_is queryStr 0 "-" = false ->
  exec fuel p h ("event" :: queryStr :: rest) =
    match rest with
    | [] => run fuel (new_jsonFilter "event: ") queryStr (event p)
    | _ :: _ =>
        Return [Stderr "event: "
                  (log_Printf "too many arguments to event: expected 0..1" [])]
               (Some (interp.NewExitStatus 1))
    end.
Proof.
  intros Hq.
  change (exec fuel p h ("event" :: queryStr :: rest))
    with (filterEvent fuel p h ("event" :: queryStr :: rest)).
  unfold filterEvent. cbn [flag.Parse].
  rewrite parseOne_not_dash by assumption.
  now destruct rest.
Qed.

End Order.

Section RunsLast.
Context `{Collaborators} `{System}.

Lemma readScript_never_runs (path : string) :
  ~ In ScriptRun (fst (readScript path)).
Proof.
  destruct (strings.HasPrefix path shebang) eqn:Hp.
  - unfold readScript. rewrite Hp. simpl. intros [E|[]]. discriminate E.
  - rewrite (readScript_actions _ Hp).
    destruct (String.eqb path "-"); [|destruct (os_Open path)]; simpl;
      intuition discriminate.
Qed.

Lemma readEvent_never_runs (path : string) :
  ~ In ScriptRun (fst (readEvent path)).
Proof.
  rewrite readEvent_actions.
  destruct (String.eqb path "-"); simpl; intuition discriminate.
Qed.

Lemma start_runs (fuel : nat) (vars : mainVars) (prog : string)
    (params : list string) :
  In ScriptRun (fst (start fuel vars prog params)) ->
  exists event script,
    snd (readEvent (eventFile vars)) = Ok event
    /\ snd (readScript prog) = Ok script.
Proof.
  unfold start. destruct (interp_New params) as [err|].
  { intros [E|[]]. discriminate E. }
  pose proof (readEvent_never_runs (eventFile vars)) as Hev.
  pose proof (readScript_never_runs prog) as Hsc.
  destruct (readEvent (eventFile vars)) as [acts [event|err]]; simpl in *.
  - destruct (readScript prog) as [acts' [script|err]]; simpl in *.
    + intros _. now exists event, script.
    + intros Hin. apply in_app_or in Hin as [Hin|Hin]; [contradiction|].
      apply in_app_or in Hin as [Hin|[E|[]]]; [contradiction | discriminate E].
  - intros Hin. apply in_app_or in Hin as [Hin|[E|[]]];
      [contradiction | discriminate E].
Qed.

(** X20.  The script is run only after the event was read and decoded and
    the script was read and parsed to its end (an incomplete script is an
    error of the parse): a failure of either keeps the script from
    running. *)
Theorem script_runs_after_event_and_parse (fuel : nat) (args : list string) :
  In ScriptRun (fst (Main fuel args)) ->
  exists vars Args event script,
    flagv.Parse main_flags main_vars0 args = inr (vars, Args)
    /\ snd (readEvent (eventFile vars)) = Ok event
    /\ snd (readScript
              (if rawScript vars
               then (shebang ++ strings.Join (fst (split_params Args)) LF)%string
               else hd "" Args)) = Ok script.
Proof.
  unfold Main.
  destruct (flagv.Parse main_flags main_vars0 args) as [e|[vars Args]].
  { destruct e; simpl; intuition discriminate. }
  destruct (rawScript vars) eqn:Hraw; cbn [andb negb].
  - destruct (List.length Args =? 0)%nat; [simpl; intuition discriminate|].
    destruct (split_params Args) as [srcArgs parArgs] eqn:Hsplit.
    intros Hin. apply start_runs in Hin as (event & script & He & Hs).
    exists vars, Args, event, script. rewrite Hraw, Hsplit. now repeat split.
  - destruct (List.length Args =? 0)%nat; [simpl; intuition discriminate|].
    destruct (_ && _); [simpl; intuition discriminate|].
    intros Hin. apply start_runs in Hin as (event & script & He & Hs).
    exists vars, Args, event, script. rewrite Hraw. now repeat split.
Qed.

End RunsLast.

(* ------------------------------------------------------------------ *)
(** ** The further properties on the samples *)

(** A timestamp is decoded to a [time.Time], which gojq does not know: on
    the sample collaborators [query type t] panics once the query was run,
    with nothing written. *)
Example query_on_timestamp_panics :
  Sample.exec 5 Sample.prog Sample.ctx ["query"; "type"; "t"]
    = Panic [Parsed "type"; Ran "type" (VTime "2001-12-14 00:00:00 +0000 UTC")].
Proof. reflexivity. Qed.


Lemma no_output_before_compiling_witness :
  stdout_of (effects_of (@filterJSON Sample.collaborators 5 Sample.ctx None
                           ["query"; "."; "v"; "docs"])) = "".
Proof.
  apply (proj1 (@no_output_before_compiling Sample.collaborators 5 Sample.prog
                  Sample.ctx None ["query"; "."; "v"; "docs"])).
  reflexivity.
Defined.

Lemma json_mode_writes_lines_witness :
  exists out,
    Sample.decode_loop 5
        {| pretty := false; json := true; yaml := false; logger := "query: " |}
        "." [VString "a"; VString "b"] None = Return out None
    /\ stdout_of out =
         json_lines [(Sample.quote ++ "a" ++ Sample.quote)%string;
                     (Sample.quote ++ "b" ++ Sample.quote)%string].
Proof.
  apply (@json_mode_writes_lines Sample.collaborators 5 false false "query: " "."
           Sample.Identity [VString "a"; VString "b"]
           [[(Sample.quote ++ "a" ++ Sample.quote)%string];
            [(Sample.quote ++ "b" ++ Sample.quote)%string]]).
  - reflexivity.
  - constructor; [|constructor; [|constructor]].
    + exists [VString "a"]. split; [intros i x Hx; exact Hx|].
      split; [reflexivity|]. split; [repeat constructor | simpl; lia].
    + exists [VString "b"]. split; [intros i x Hx; exact Hx|].
      split; [reflexivity|]. split; [repeat constructor | simpl; lia].
Defined.

Lemma yaml_mode_restarts_per_run_witness :
  exists out,
    Sample.run 5
        {| pretty := false; json := false; yaml := true; logger := "query: " |}
        ".[]" (VSlice [VString "a"; VString "b"]) = Return out None
    /\ stdout_of out =
         written_texts [("a" ++ LF)%string; ("---" ++ LF ++ "b" ++ LF)%string].
Proof.
  apply (@yaml_mode_restarts_per_run Sample.collaborators 5 false "query: " ".[]"
           Sample.Each (VSlice [VString "a"; VString "b"])
           [VString "a"; VString "b"]
           [("a" ++ LF)%string; ("---" ++ LF ++ "b" ++ LF)%string]).
  - reflexivity.
  - intros i x Hx. exact Hx.
  - reflexivity.
  - reflexivity.
  - intros [|[|k]] val; simpl; intros E;
      [injection E as <-; reflexivity | injection E as <-; reflexivity |].
    destruct k; discriminate E.
  - simpl. lia.
Defined.

Lemma plain_failure_leaves_separator_witness :
  exists out,
    Sample.run 5 (new_jsonFilter "query: ") ".[]"
        (VSlice [VString "a"; VSlice []; VString "b"])
      = Return (out ++ [Stderr "query: "
                          (log_Printf "encoding error: %v" ["unsupported value"])])
               (Some (interp.NewExitStatus 1))
    /\ stdout_of out = ("a" ++ LF)%string.
Proof.
  apply (@plain_failure_leaves_separator Sample.collaborators 5 false "query: "
           ".[]" Sample.Each (VSlice [VString "a"; VSlice []; VString "b"])
           [VString "a"] ["a"] (VSlice []) "unsupported value"
           [Val (VString "b")]).
  - reflexivity.
  - intros i x Hx. exact Hx.
  - repeat constructor.
  - discriminate.
  - reflexivity.
  - simpl. lia.
Defined.

Lemma decode_error_after_documents_witness :
  Sample.filter_reader 5 query_vars0 "."
      {| data := "a"; fault := Some "unexpected EOF" |}
    = Return [Parsed "."; Ran "." (VString "a"); Stdout "a";
              Stderr "query: " (log_Printf "error decoding input: %v" ["unexpected EOF"])]
             (Some (interp.NewExitStatus 1)).
Proof.
  apply (@decode_error_after_documents Sample.collaborators 5 query_vars0 "."
           {| data := "a"; fault := Some "unexpected EOF" |} [VString "a"]
           [[Parsed "."; Ran "." (VString "a"); Stdout "a"]] "unexpected EOF").
  - reflexivity.
  - reflexivity.
  - repeat constructor.
Defined.

Lemma other_commands_are_delegated_witness :
  Sample.exec 5 Sample.prog Sample.ctx ["echo"; "@v"]
    = defaultExec Sample.prog Sample.ctx ["echo"; "@v"].
Proof.
  apply (@other_commands_are_delegated Sample.collaborators 5 Sample.prog
           Sample.ctx "echo" ["@v"]); [discriminate | discriminate | reflexivity].
Defined.

Lemma at_name_raw_input_witness :
  Sample.exec 5 Sample.prog Sample.ctx ["@PATH"; "-R"; "."]
    = Sample.run 5 (new_jsonFilter "query: ") "."
        (VString ("/usr/bin" ++ LF ++ "/bin")).
Proof.
  apply (@at_name_raw_input Sample.collaborators 5 Sample.prog Sample.ctx
           "PATH" "."); [discriminate | discriminate | now right | reflexivity].
Defined.

Lemma at_name_with_source_witness :
  Sample.exec 5 Sample.prog Sample.ctx ["@v"; "."; "docs"]
    = Return [Stderr "query: "
                (log_Printf "too many argument to query: expected 0..2" [])]
             (Some (interp.NewExitStatus 1)).
Proof.
  apply (@at_name_with_source Sample.collaborators 5 Sample.prog Sample.ctx
           "v" ["."; "docs"] query_vars0 "." "docs" []);
    [discriminate | now left | reflexivity].
Defined.

Lemma event_default_query_witness :
  Sample.exec 5 Sample.prog Sample.ctx ["event"; "-j"]
    = Sample.run 5 (set_json true (new_jsonFilter "event: ")) "." (event Sample.prog)
  /\ Sample.exec 5 Sample.prog Sample.ctx ["event"; "-j"]
    = Sample.exec 5 Sample.prog Sample.ctx ["event"; "-j"; "."].
Proof.
  apply (@event_default_query Sample.collaborators 5 Sample.prog Sample.ctx
           ["-j"] (set_json true (new_jsonFilter "event: "))).
  reflexivity.
Defined.

Lemma split_params_at_first_terminator_witness :
  ["echo a"; "--"; "b"; "--"; "c"]
    = fst (split_params ["echo a"; "--"; "b"; "--"; "c"])
        ++ "--" :: snd (split_params ["echo a"; "--"; "b"; "--"; "c"]).
Proof.
  apply (proj1 (proj2
           (split_params_at_first_terminator ["echo a"; "--"; "b"; "--"; "c"]))).
  right. now left.
Defined.

Lemma raw_mode_opens_only_the_event_witness :
  "event.yml" = eventFile {| eventFile := "event.yml"; rawScript := true |}
  /\ "event.yml" <> "-".
Proof.
  apply (proj1 (@raw_mode_opens_only_the_event Sample.collaborators
                  SampleSystem.system 5
                  ["-R"; "-E"; "event.yml"; "event ."; "check.sh"]
                  {| eventFile := "event.yml"; rawScript := true |}
                  ["event ."; "check.sh"] eq_refl eq_refl) "event.yml").
  vm_compute. tauto.
Defined.

Lemma unreadable_event_is_fatal_witness :
  snd (SampleSystem.Main 5 ["-E"; "missing.yml"; "check.sh"]) = 1
  /\ forallb (fun a => negb (is_script_action a))
       (fst (SampleSystem.Main 5 ["-E"; "missing.yml"; "check.sh"])) = true.
Proof.
  apply (@unreadable_event_is_fatal Sample.collaborators SampleSystem.system 5
           ["-E"; "missing.yml"; "check.sh"]
           {| eventFile := "missing.yml"; rawScript := false |} ["check.sh"]
           [Opened "missing.yml"]
           "error opening event [missing.yml]: no such file or directory");
    reflexivity.
Defined.

Lemma exit_status_of_main_witness :
  flagv.Parse main_flags main_vars0 ["-help"] = inl flagv.ErrHelp.
Proof.
  apply (proj2 (@exit_status_of_main Sample.collaborators SampleSystem.system 5
                  ["-help"])).
  reflexivity.
Defined.

Lemma plain_documents_concatenated_witness :
  exists out,
    Sample.decode_loop 5 (new_jsonFilter "query: ") "."
        [VString "a"; VString "b"] None = Return out None
    /\ stdout_of out = "ab".
Proof.
  apply (@plain_documents_concatenated Sample.collaborators 5 false "query: " "."
           Sample.Identity [VString "a"; VString "b"] [["a"]; ["b"]]).
  - reflexivity.
  - constructor; [|constructor; [|constructor]].
    + exists [VString "a"]. split; [intros i x Hx; exact Hx|].
      split; [reflexivity|]. split; [repeat constructor | simpl; lia].
    + exists [VString "b"]. split; [intros i x Hx; exact Hx|].
      split; [reflexivity|]. split; [repeat constructor | simpl; lia].
Defined.

Lemma query_string_ends_options_witness :
  Sample.exec 5 Sample.prog Sample.ctx ["query"; "."; "v"; "-j"]
    = Return [Stderr "query: "
                (log_Printf "too many argument to query: expected 0..2" [])]
             (Some (interp.NewExitStatus 1)).
Proof.
  apply (@query_string_ends_options Sample.collaborators 5 Sample.prog Sample.ctx
           "." ["v"; "-j"]).
  reflexivity.
Defined.

Lemma event_query_string_witness :
  Sample.exec 5 Sample.prog Sample.ctx ["event"; "type"]
    = Return [Parsed "type"; Ran "type" (VMap []); Stdout "object"] None.
Proof.
  apply (@event_query_string Sample.collaborators 5 Sample.prog Sample.ctx
           "type" []).
  reflexivity.
Defined.

Lemma script_runs_after_event_and_parse_witness :
  exists vars Args event script,
    flagv.Parse main_flags main_vars0 ["-E"; "event.yml"; "check.sh"; "a"]
      = inr (vars, Args)
    /\ snd (SampleSystem.readEvent (eventFile vars)) = Ok event
    /\ snd (SampleSystem.readScript
              (if rawScript vars
               then (shebang ++ strings.Join (fst (split_params Args)) LF)%string
               else hd "" Args)) = Ok script.
Proof.
  apply (@script_runs_after_event_and_parse Sample.collaborators
           SampleSystem.system 5 ["-E"; "event.yml"; "check.sh"; "a"]).
  vm_compute. tauto.
Defined.
